(** * Session reconstruction and metrics of the multi-agent session analyzer

    A shallow embedding of the computational core of [dashboard.py]:
    the token enrichment of [load_database], the identifier resolver,
    event normaliser and session aggregator of
    [build_unified_session_view], and [calculate_session_metrics].

    Data model.  A pandas table is the list of its rows, in row order, and
    a row is a record with one field per column of the snapshot schema
    (so every [ 'col' in row ] test of the source holds).  A nullable cell
    ([None], [NaN], [NaT]) is an [option]; a timestamp is its number of
    nanoseconds; a component or session identifier is an integer or a
    text; a float column holds binary64 values; a parsed JSON column
    holds a [json] value, and the request and response columns hold JSON
    objects.

    Reading the database, converting the time columns and parsing the
    JSON columns happen before the functions modelled here; their
    results are the typed rows.  Outside the model: JSON numbers with a
    fraction, the quoting Python applies when it prints a text that has
    quotes or escapes, upper-casing and digits beyond ASCII, overflow of
    64-bit integer columns, the order in which numpy adds up a float
    column, and the derived columns that no modelled function reads
    (duration, date, hour, day of week, request and response size). *)

From Stdlib Require Import ZArith Floats Ascii String List Sorting.Sorted.
From stdpp Require Import gmap strings list sorting.

Open Scope Z_scope.

Set Warnings "-register-all".

(** ** Python values *)

(** Opaque identifiers: SQLite INTEGER ids come out as numbers, TEXT ids
    as strings. *)
Inductive ident :=
| IdInt (n : Z)
| IdStr (s : string).

#[global] Instance ident_eq_dec : EqDecision ident.
Proof. solve_decision. Defined.

#[global] Instance ident_countable : Countable ident.
Proof.
  refine (inj_countable'
            (fun i => match i with IdInt n => inl n | IdStr s => inr s end)
            (fun x => match x with inl n => IdInt n | inr s => IdStr s end) _).
  intros [n|s]; reflexivity.
Defined.

(** Truth value of an identifier in [if source_id] / [if session_id]:
    [None], [0] and the empty string are false. *)
Definition truthy (o : option ident) : bool :=
  match o with
  | None => false
  | Some (IdInt n) => negb (n =? 0)
  | Some (IdStr s) => negb (String.eqb s "")
  end.

(** [pd.notna] on a cell. *)
Definition notna {A} (o : option A) : bool :=
  match o with Some _ => true | None => false end.

(** Parsed JSON.  An object keeps its members in document order. *)
Inductive json :=
| JNull
| JBool (b : bool)
| JInt (n : Z)
| JStr (s : string)
| JList (l : list json)
| JObj (kvs : list (string * json)).

Definition dict := list (string * json).

(** [d.get(k)] and [d.get(k, default)] on a dict. *)
Fixpoint dict_lookup (k : string) (d : dict) : option json :=
  match d with
  | [] => None
  | (k', v) :: d' => if String.eqb k k' then Some v else dict_lookup k d'
  end.

Definition dict_get (k : string) (d : dict) (dflt : json) : json :=
  match dict_lookup k d with Some v => v | None => dflt end.

(** Structural equality of parsed values. *)
Fixpoint json_eqb (a b : json) {struct a} : bool :=
  match a, b with
  | JNull, JNull => true
  | JBool x, JBool y => Bool.eqb x y
  | JInt x, JInt y => x =? y
  | JStr x, JStr y => String.eqb x y
  | JList xs, JList ys =>
      (fix go (xs ys : list json) : bool :=
         match xs, ys with
         | [], [] => true
         | x :: xs', y :: ys' => json_eqb x y && go xs' ys'
         | _, _ => false
         end) xs ys
  | JObj xs, JObj ys =>
      (fix go (xs ys : list (string * json)) : bool :=
         match xs, ys with
         | [], [] => true
         | (k, x) :: xs', (k', y) :: ys' =>
             String.eqb k k' && json_eqb x y && go xs' ys'
         | _, _ => false
         end) xs ys
  | _, _ => false
  end.

(** [hash(x)] succeeds on [None], booleans, numbers and texts; a list
    or a dict cannot be hashed, so it cannot be a member of a set. *)
Definition hashable (j : json) : bool :=
  match j with
  | JList _ | JObj _ => false
  | _ => true
  end.

(** Python takes [True] for 1 and [False] for 0 when it compares and
    hashes: the value a hashable member of a set is known by. *)
Definition py_key (j : json) : json :=
  match j with
  | JBool b => JInt (if b then 1 else 0)
  | _ => j
  end.

(** [x == y] between hashable parsed values. *)
Definition py_eqb (a b : json) : bool := json_eqb (py_key a) (py_key b).

(** *** Exceptions *)

Inductive exn :=
| KeyError (k : string)
| ValueError
| TypeError
| AttributeError.

Inductive result (A : Type) :=
| Ok (a : A)
| Raise (e : exn).
Arguments Ok {A} a.
Arguments Raise {A} e.

#[global] Instance result_ret : MRet result := fun A a => Ok a.

#[global] Instance result_bind : MBind result :=
  fun A B f r => match r with Ok a => f a | Raise e => Raise e end.

(** *** [str] *)

Definition digit_char (d : Z) : ascii := ascii_of_nat (48 + Z.to_nat d).

Fixpoint digits_aux (fuel : nat) (n : Z) (acc : string) : string :=
  match fuel with
  | O => acc
  | S fuel' =>
      let acc' := String (digit_char (n mod 10)) acc in
      if n / 10 =? 0 then acc' else digits_aux fuel' (n / 10) acc'
  end.

Definition str_int (n : Z) : string :=
  if n <? 0 then "-" +:+ digits_aux (S (Z.to_nat (Z.log2 (- n)))) (- n) ""
  else digits_aux (S (Z.to_nat (Z.log2 n))) n "".

Fixpoint join (sep : string) (l : list string) : string :=
  match l with
  | [] => ""
  | [s] => s
  | s :: l' => s +:+ sep +:+ join sep l'
  end.

(** [str] of a parsed JSON value, as Python prints nested lists and
    dicts.  A text is put between single quotes as it stands (Python
    switches quotes or escapes when the text has quotes, backslashes or
    control characters). *)
Fixpoint py_str (j : json) : string :=
  match j with
  | JNull => "None"
  | JBool true => "True"
  | JBool false => "False"
  | JInt n => str_int n
  | JStr s => "'" +:+ s +:+ "'"
  | JList l => "[" +:+ join ", " (List.map py_str l) +:+ "]"
  | JObj kvs =>
      "{" +:+ join ", "
                (List.map (fun kv => "'" +:+ fst kv +:+ "': " +:+ py_str (snd kv)) kvs)
          +:+ "}"
  end.

(** [needle in s] on strings. *)
Fixpoint contains (needle s : string) : bool :=
  String.prefix needle s ||
  match s with
  | EmptyString => false
  | String _ s' => contains needle s'
  end.

(** *** [int] *)

Definition is_space (c : ascii) : bool :=
  let n := nat_of_ascii c in
  ((9 <=? n)%nat && (n <=? 13)%nat) || ((28 <=? n)%nat && (n <=? 32)%nat).

Fixpoint lstrip (s : string) : string :=
  match s with
  | String c s' => if is_space c then lstrip s' else s
  | EmptyString => EmptyString
  end.

Fixpoint rstrip (s : string) : string :=
  match s with
  | EmptyString => EmptyString
  | String c s' =>
      match rstrip s' with
      | EmptyString => if is_space c then EmptyString else String c EmptyString
      | t => String c t
      end
  end.

Definition strip (s : string) : string := rstrip (lstrip s).

Definition digit_val (c : ascii) : option Z :=
  let n := nat_of_ascii c in
  if ((48 <=? n)%nat && (n <=? 57)%nat)%bool then Some (Z.of_nat n - 48) else None.

(** Decimal digits with single underscores between digits; [prev] tells
    whether the previous character was a digit. *)
Fixpoint parse_digits (s : string) (acc : Z) (prev : bool) : option Z :=
  match s with
  | EmptyString => if prev then Some acc else None
  | String c s' =>
      match digit_val c with
      | Some d => parse_digits s' (10 * acc + d) true
      | None =>
          if (Ascii.eqb c "_"%char && prev)%bool then parse_digits s' acc false else None
      end
  end.

(** [int(s)] on a text: surrounding white space, an optional sign, then
    decimal digits (ASCII). *)
Definition int_of_string (s : string) : option Z :=
  match strip s with
  | String "-"%char t => option_map Z.opp (parse_digits t 0 false)
  | String "+"%char t => parse_digits t 0 false
  | t => parse_digits t 0 false
  end.

Definition py_int (j : json) : result Z :=
  match j with
  | JInt n => Ok n
  | JBool b => Ok (if b then 1 else 0)
  | JStr s => match int_of_string s with Some n => Ok n | None => Raise ValueError end
  | JNull | JList _ | JObj _ => Raise TypeError
  end.

(** [x.get(k, default)] where [x] is any parsed value: only a dict has
    [get]. *)
Definition py_get (j : json) (k : string) (dflt : json) : result json :=
  match j with
  | JObj d => Ok (dict_get k d dflt)
  | _ => Raise AttributeError
  end.

(** *** Floats *)

(** Conversion of an integer column to float64 (round to nearest even). *)
Definition float_of_Z (z : Z) : float :=
  SF2Prim (binary_normalize prec emax z 0 false).

(** ** The tables of a snapshot *)

Record agent_row := {
  ag_session_id : option ident;
  ag_wrapper_id : option ident;
  ag_agent_id : option ident;
  ag_timestamp : option Z;
  ag_source_name : option string;
  ag_agent_class_name : option string;
  ag_config_dict : json
}.

Record event_row := {
  ev_session_id : option ident;
  ev_source_id : option ident;
  ev_timestamp : option Z;
  ev_event_name : option string;
  ev_source_name : option string;
  ev_state_dict : json
}.

Record cc_row := {
  cc_session_id : option ident;
  cc_client_id : option ident;
  cc_wrapper_id : option ident;
  cc_invocation_id : option ident;
  cc_start_time : option Z;
  cc_end_time : option Z;
  cc_source_name : option string;
  cc_request_dict : dict;
  cc_response_dict : dict;
  cc_cost : float;
  cc_latency : float;
  cc_is_cached : Z
}.

(** A function-call row.  [fc_session_id] stands for a session cell the
    row may carry; no function below reads it. *)
Record function_call_row := {
  fc_source_id : option ident;
  fc_session_id : option ident;
  fc_timestamp : option Z;
  fc_source_name : option string;
  fc_function_name : option string;
  fc_args_dict : json;
  fc_returns_dict : json
}.

Record client_row := {
  cl_session_id : option ident;
  cl_client_id : option ident;
  cl_wrapper_id : option ident;
  cl_timestamp : option Z;
  cl_config_dict : json
}.

Record wrapper_row := {
  wr_session_id : option ident;
  wr_wrapper_id : option ident;
  wr_timestamp : option Z;
  wr_config_dict : json
}.

(** A chat-completion row with the columns [load_database] derives. *)
Record cc_enriched := {
  cc_base : cc_row;
  cc_total_tokens : Z;
  cc_prompt_tokens : Z;
  cc_completion_tokens : Z;
  cc_cost_per_token : float;
  cc_completion_ratio : float
}.

(** The chat-completion frame either has only the columns read from the
    database, or also the derived ones. *)
Inductive cc_frame :=
| Plain (rows : list cc_row)
| Enriched (rows : list cc_enriched).

Definition frame_rows (f : cc_frame) : list cc_row :=
  match f with
  | Plain rows => rows
  | Enriched rows => List.map cc_base rows
  end.

(** The six tables as read and parsed, before enrichment. *)
Record snapshot := {
  s_agents : list agent_row;
  s_chat_completions : list cc_row;
  s_events : list event_row;
  s_function_calls : list function_call_row;
  s_oai_clients : list client_row;
  s_oai_wrappers : list wrapper_row
}.

(** The [tables] dict that [load_database] returns. *)
Record tables := {
  agents : list agent_row;
  chat_completions : cc_frame;
  events : list event_row;
  function_calls : list function_call_row;
  oai_clients : list client_row;
  oai_wrappers : list wrapper_row
}.

(** ** [load_database]: enrichment of the chat completions *)

Definition upper_char (c : ascii) : ascii :=
  let n := nat_of_ascii c in
  if ((97 <=? n)%nat && (n <=? 122)%nat)%bool then ascii_of_nat (n - 32) else c.

Fixpoint upper (s : string) : string :=
  match s with
  | EmptyString => EmptyString
  | String c s' => String (upper_char c) (upper s')
  end.

(** [extract_tokens]: the three counts are coerced in this order, and
    the first failing coercion is the one raised. *)
Definition extract_tokens (response_dict : dict) : result (Z * Z * Z) :=
  let usage := dict_get "usage" response_dict (JObj []) in
  total ← (py_get usage "total_tokens" (JInt 0) ≫= py_int);
  prompt ← (py_get usage "prompt_tokens" (JInt 0) ≫= py_int);
  completion ← (py_get usage "completion_tokens" (JInt 0) ≫= py_int);
  mret (total, prompt, completion).

(** [np.where(cond, a, b)] on one row: both [a] and [b] are already
    computed. *)
Definition np_where (cond : bool) (a b : float) : float :=
  if cond then a else b.

Definition cost_per_token (cost : float) (total_tokens : Z) : float :=
  np_where (0 <? total_tokens) (PrimFloat.div cost (float_of_Z total_tokens)) 0%float.

Definition completion_ratio (completion_tokens total_tokens : Z) : float :=
  np_where (0 <? total_tokens)
    (PrimFloat.div (float_of_Z completion_tokens) (float_of_Z total_tokens)) 0%float.

Definition normalize_source_name (r : cc_row) : cc_row :=
  {| cc_session_id := cc_session_id r;
     cc_client_id := cc_client_id r;
     cc_wrapper_id := cc_wrapper_id r;
     cc_invocation_id := cc_invocation_id r;
     cc_start_time := cc_start_time r;
     cc_end_time := cc_end_time r;
     cc_source_name := option_map (fun s => strip (upper s)) (cc_source_name r);
     cc_request_dict := cc_request_dict r;
     cc_response_dict := cc_response_dict r;
     cc_cost := cc_cost r;
     cc_latency := cc_latency r;
     cc_is_cached := cc_is_cached r |}.

Definition enrich_row (r : cc_row) : result cc_enriched :=
  '(total, prompt, completion) ← extract_tokens (cc_response_dict r);
  mret {| cc_base := normalize_source_name r;
          cc_total_tokens := total;
          cc_prompt_tokens := prompt;
          cc_completion_tokens := completion;
          cc_cost_per_token := cost_per_token (cc_cost r) total;
          cc_completion_ratio := completion_ratio completion total |}.

(** The block under [if not cc.empty]: an empty table is left as read. *)
Definition enrich_chat_completions (cc : list cc_row) : result cc_frame :=
  match cc with
  | [] => Ok (Plain [])
  | _ => rows ← mapM enrich_row cc; mret (Enriched rows)
  end.

(** [load_database] after reading and parsing: any exception of the
    enrichment is caught and the function returns [None]. *)
Definition load_database (s : snapshot) : option tables :=
  match enrich_chat_completions (s_chat_completions s) with
  | Ok cc =>
      Some {| agents := s_agents s;
              chat_completions := cc;
              events := s_events s;
              function_calls := s_function_calls s;
              oai_clients := s_oai_clients s;
              oai_wrappers := s_oai_wrappers s |}
  | Raise _ => None
  end.

(** ** Unified events *)

Inductive event_type :=
| agent_config
| event_received_message
| event_other
| llm_call_start
| llm_call_end
| function_call
| client_config
| wrapper_config.

#[global] Instance event_type_eq_dec : EqDecision event_type.
Proof. solve_decision. Defined.

(** The ['type'] tag together with the keys that only some types have:
    ['invocation_id'] and the ['details'] payload. *)
Inductive details :=
| AgentConfig (config : json) (class : option string) (agent_id : option ident)
| EventState (event_name : option string) (data : json)
| LlmRequest (invocation : option ident) (request : dict) (model : json)
    (wrapper_id : option ident)
| LlmResponse (invocation : option ident) (response : dict) (cost latency : float)
    (is_cached : Z) (wrapper_id : option ident)
| FunctionCall (function_name : option string) (args returns : json)
| ClientConfig (config : json) (wrapper_id : option ident)
| WrapperConfig (config : json).

Record event := {
  timestamp : option Z;
  session_id : option ident;
  source_name : option string;
  source_id : option ident;
  payload : details
}.

Definition is_received_message (event_name : option string) : bool :=
  match event_name with
  | Some n => String.eqb n "received_message"
  | None => false
  end.

Definition type (e : event) : event_type :=
  match payload e with
  | AgentConfig _ _ _ => agent_config
  | EventState name _ =>
      if is_received_message name then event_received_message else event_other
  | LlmRequest _ _ _ _ => llm_call_start
  | LlmResponse _ _ _ _ _ _ => llm_call_end
  | FunctionCall _ _ _ => function_call
  | ClientConfig _ _ => client_config
  | WrapperConfig _ => wrapper_config
  end.

(** The ['invocation_id'] key: absent ([None]) except on the two LLM
    events, where it holds the row's cell. *)
Definition invocation_id (e : event) : option (option ident) :=
  match payload e with
  | LlmRequest i _ _ _ => Some i
  | LlmResponse i _ _ _ _ _ => Some i
  | _ => None
  end.

(** ** [build_unified_session_view] *)

(** *** The identifier-to-session map *)

(** [id_to_session[k] = session_id], run only when the cell [k] is not
    null. *)
Definition register (k : option ident) (session : ident)
    (m : gmap ident ident) : gmap ident ident :=
  match k with
  | Some k => <[k := session]> m
  | None => m
  end.

Definition register_agent (m : gmap ident ident) (r : agent_row) : gmap ident ident :=
  match ag_session_id r with
  | Some s => register (ag_agent_id r) s (register (ag_wrapper_id r) s m)
  | None => m
  end.

Definition register_client (m : gmap ident ident) (r : client_row) : gmap ident ident :=
  match cl_session_id r with
  | Some s => register (cl_wrapper_id r) s (register (cl_client_id r) s m)
  | None => m
  end.

Definition register_wrapper (m : gmap ident ident) (r : wrapper_row) : gmap ident ident :=
  match wr_session_id r with
  | Some s => register (wr_wrapper_id r) s m
  | None => m
  end.

Definition register_agents (rows : list agent_row) (m : gmap ident ident) :=
  fold_left register_agent rows m.

Definition register_clients (rows : list client_row) (m : gmap ident ident) :=
  fold_left register_client rows m.

Definition register_wrappers (rows : list wrapper_row) (m : gmap ident ident) :=
  fold_left register_wrapper rows m.

Definition id_to_session (t : tables) : gmap ident ident :=
  register_wrappers (oai_wrappers t)
    (register_clients (oai_clients t)
       (register_agents (agents t) ∅)).

(** *** One event per row *)

Definition agent_event (r : agent_row) : event :=
  {| timestamp := ag_timestamp r;
     session_id := ag_session_id r;
     source_name := ag_source_name r;
     source_id := ag_wrapper_id r;
     payload := AgentConfig (ag_config_dict r) (ag_agent_class_name r) (ag_agent_id r) |}.

Definition state_event (r : event_row) : event :=
  {| timestamp := ev_timestamp r;
     session_id := ev_session_id r;
     source_name := ev_source_name r;
     source_id := ev_source_id r;
     payload := EventState (ev_event_name r) (ev_state_dict r) |}.

Definition llm_start_event (r : cc_row) : event :=
  {| timestamp := cc_start_time r;
     session_id := cc_session_id r;
     source_name := cc_source_name r;
     source_id := cc_client_id r;
     payload := LlmRequest (cc_invocation_id r) (cc_request_dict r)
                  (dict_get "model" (cc_request_dict r) (JStr "Unknown"))
                  (cc_wrapper_id r) |}.

Definition llm_end_event (r : cc_row) : event :=
  {| timestamp := cc_end_time r;
     session_id := cc_session_id r;
     source_name := cc_source_name r;
     source_id := cc_client_id r;
     payload := LlmResponse (cc_invocation_id r) (cc_response_dict r) (cc_cost r)
                  (cc_latency r) (cc_is_cached r) (cc_wrapper_id r) |}.

Definition llm_events (r : cc_row) : list event :=
  [llm_start_event r; llm_end_event r].

(** The session a function call is filed under:
    [id_to_session.get(source_id) if source_id else None]. *)
Definition resolve_session (m : gmap ident ident) (source : option ident)
    : option ident :=
  if truthy source then source ≫= (fun k => m !! k) else None.

Definition function_call_event (m : gmap ident ident) (r : function_call_row)
    : option event :=
  let session := resolve_session m (fc_source_id r) in
  if truthy session then
    Some {| timestamp := fc_timestamp r;
            session_id := session;
            source_name := fc_source_name r;
            source_id := fc_source_id r;
            payload := FunctionCall (fc_function_name r) (fc_args_dict r)
                         (fc_returns_dict r) |}
  else None.

Definition client_event (r : client_row) : event :=
  {| timestamp := cl_timestamp r;
     session_id := cl_session_id r;
     source_name := Some "System";
     source_id := cl_client_id r;
     payload := ClientConfig (cl_config_dict r) (cl_wrapper_id r) |}.

Definition wrapper_event (r : wrapper_row) : event :=
  {| timestamp := wr_timestamp r;
     session_id := wr_session_id r;
     source_name := Some "System";
     source_id := wr_wrapper_id r;
     payload := WrapperConfig (wr_config_dict r) |}.

(** The list [unified_events] once the six loops have run. *)
Definition unified_events (t : tables) : list event :=
  List.map agent_event (agents t)
  ++ List.map state_event (events t)
  ++ List.flat_map llm_events (frame_rows (chat_completions t))
  ++ omap (function_call_event (id_to_session t)) (function_calls t)
  ++ List.map client_event (oai_clients t)
  ++ List.map wrapper_event (oai_wrappers t).

(** *** Sorting and grouping *)

Definition valid_events (l : list event) : list event :=
  List.filter (fun e => notna (timestamp e)) l.

(** The sort key [x['timestamp']]; only read on events that have one. *)
Definition sort_key (e : event) : Z := default 0 (timestamp e).

(** [sorted(..., key=...)] is a stable sort: an element goes before the
    first later element whose key is not smaller. *)
Fixpoint insert_by_key (e : event) (l : list event) : list event :=
  match l with
  | [] => [e]
  | x :: l' => if sort_key e <=? sort_key x then e :: l else x :: insert_by_key e l'
  end.

Definition sorted (l : list event) : list event :=
  foldr insert_by_key [] l.

(** [session_data[event['session_id']].append(event)] on a
    [defaultdict(list)], guarded by [pd.notna]. *)
Definition append_event (session_data : gmap ident (list event)) (e : event)
    : gmap ident (list event) :=
  match session_id e with
  | Some s => <[s := default [] (session_data !! s) ++ [e]]> session_data
  | None => session_data
  end.

Definition group_by_session (l : list event) : gmap ident (list event) :=
  fold_left append_event l ∅.

Definition build_unified_session_view (t : tables) : gmap ident (list event) :=
  group_by_session (sorted (valid_events (unified_events t))).

(** ** [calculate_session_metrics] *)

Inductive status := Completed | Failed.

Record SessionMetrics := {
  m_session_id : ident;
  m_start_time : option Z;
  m_end_time : option Z;
  (** [end_time - start_time], in nanoseconds; [total_seconds()] shows
      it in seconds *)
  m_duration : option Z;
  m_status : status;
  m_num_messages : nat;
  m_num_llm_calls : nat;
  m_num_function_calls : nat;
  m_agents : list (option string);
  m_functions : list (option string);
  m_models : list json;
  m_total_cost : float;
  m_total_tokens : Z
}.

(** [<] on timestamps: every comparison with [NaT] is false. *)
Definition ts_lt (a b : option Z) : bool :=
  match a, b with
  | Some x, Some y => x <? y
  | _, _ => false
  end.

(** [min] and [max] of a non-empty sequence keep the first element
    until a strictly smaller (larger) one comes. *)
Definition py_min (x : option Z) (l : list (option Z)) : option Z :=
  fold_left (fun m y => if ts_lt y m then y else m) l x.

Definition py_max (x : option Z) (l : list (option Z)) : option Z :=
  fold_left (fun m y => if ts_lt m y then y else m) l x.

Definition ts_sub (a b : option Z) : option Z :=
  match a, b with
  | Some x, Some y => Some (x - y)
  | _, _ => None
  end.

(** [s.add(x)]; the members are kept in order of first insertion. *)
Definition set_add {A} (eqb : A -> A -> bool) (x : A) (s : list A) : list A :=
  if existsb (eqb x) s then s else s ++ [x].

Definition name_eqb (a b : option string) : bool := bool_decide (a = b).

(** What the loop over the events carries. *)
Record scan := {
  event_counts : event_type -> nat;
  agent_names : list (option string);
  function_names : list (option string);
  llm_models : list json;
  scan_status : status
}.

Definition scan_init : scan :=
  {| event_counts := fun _ => O;
     agent_names := [];
     function_names := [];
     llm_models := [];
     scan_status := Completed |}.

Definition count_up (counts : event_type -> nat) (t : event_type) : event_type -> nat :=
  fun t' => if bool_decide (t' = t) then S (counts t') else counts t'.

(** One round of [for event in session_events].  [llm_models.add]
    raises [TypeError] on a model that cannot be hashed, and takes a
    model equal to a member for that member. *)
Definition scan_event (a : scan) (e : event) : result scan :=
  let counts := count_up (event_counts a) (type e) in
  let names := set_add name_eqb (source_name e) (agent_names a) in
  match payload e with
  | FunctionCall fn _ _ =>
      Ok {| event_counts := counts; agent_names := names;
            function_names := set_add name_eqb fn (function_names a);
            llm_models := llm_models a; scan_status := scan_status a |}
  | LlmRequest _ _ model _ =>
      if hashable model then
        Ok {| event_counts := counts; agent_names := names;
              function_names := function_names a;
              llm_models := set_add py_eqb model (llm_models a);
              scan_status := scan_status a |}
      else Raise TypeError
  | EventState name data =>
      Ok {| event_counts := counts; agent_names := names;
            function_names := function_names a;
            llm_models := llm_models a;
            scan_status :=
              if (is_received_message name && contains "exitcode" (py_str data))%bool
              then Failed else scan_status a |}
  | _ =>
      Ok {| event_counts := counts; agent_names := names;
            function_names := function_names a;
            llm_models := llm_models a; scan_status := scan_status a |}
  end.

(** The whole loop: it stops at the first round that raises. *)
Fixpoint scan_all (l : list event) (a : scan) : result scan :=
  match l with
  | [] => Ok a
  | e :: l' => a' ← scan_event a e; scan_all l' a'
  end.

(** [Series.sum()] of a float column: [NaN] cells are skipped, the rest
    added up in row order. *)
Definition sum_cost (l : list float) : float :=
  fold_left (fun acc c => if PrimFloat.is_nan c then acc else PrimFloat.add acc c)
    l 0%float.

Definition sum_tokens (l : list Z) : Z := fold_left Z.add l 0.

(** [chat_completions_df[chat_completions_df['session_id'] == session_id]] *)
Definition session_rows (sid : ident) (rows : list cc_enriched) : list cc_enriched :=
  List.filter (fun r => bool_decide (cc_session_id (cc_base r) = Some sid)) rows.

(** The result is [Ok None] for the empty dict returned on an empty
    timeline.  The loop over the events runs before the chat-completion
    frame is read, so its [TypeError] comes first; on a frame without
    the derived columns the lookup of ['total_tokens'] raises. *)
Definition calculate_session_metrics (sid : ident) (session_events : list event)
    (chat_completions_df : cc_frame) : result (option SessionMetrics) :=
  match session_events with
  | [] => Ok None
  | e0 :: rest =>
      let start_time := py_min (timestamp e0) (List.map timestamp rest) in
      let end_time := py_max (timestamp e0) (List.map timestamp rest) in
      a ← scan_all session_events scan_init;
      match chat_completions_df with
      | Plain _ => Raise (KeyError "total_tokens")
      | Enriched rows =>
          let session_cc := session_rows sid rows in
          Ok (Some {| m_session_id := sid;
                      m_start_time := start_time;
                      m_end_time := end_time;
                      m_duration := ts_sub end_time start_time;
                      m_status := scan_status a;
                      m_num_messages := event_counts a event_received_message;
                      m_num_llm_calls := event_counts a llm_call_start;
                      m_num_function_calls := event_counts a function_call;
                      m_agents := agent_names a;
                      m_functions := function_names a;
                      m_models := llm_models a;
                      m_total_cost :=
                        sum_cost (List.map (fun r => cc_cost (cc_base r)) session_cc);
                      m_total_tokens := sum_tokens (List.map cc_total_tokens session_cc) |})
      end
  end.

(** ** Fragments of the views *)

(** [s.split(sep)] for a separator of one character. *)
Fixpoint split (sep : ascii) (s : string) : list string :=
  match s with
  | EmptyString => [EmptyString]
  | String c s' =>
      if Ascii.eqb c sep then EmptyString :: split sep s'
      else match split sep s' with
           | seg :: segs => String c seg :: segs
           | [] => [String c EmptyString]
           end
  end.

(** [source.split('_')[-1] if '_' in source else source], the role under
    which an event is drawn. *)
Definition role_of (source : string) : string :=
  if contains "_" source then List.last (split "_" source) EmptyString else source.

(** [str(x)] of a parsed value: a text is itself, anything else prints
    as in [py_str]. *)
Definition str_of (j : json) : string :=
  match j with
  | JStr s => s
  | _ => py_str j
  end.

(** Whether [display_session_trace] shows an event as an error message:
    it is a received message and "exitcode" is in the text of the
    ['content'] of its data. *)
Definition trace_marks_error (e : event) : result bool :=
  match payload e with
  | EventState name data =>
      if is_received_message name then
        content ← py_get data "content" (JStr "");
        mret (contains "exitcode" (str_of content))
      else mret false
  | _ => mret false
  end.

(** [content[:297] + "..."] when [len(content) > 300], the shortening of
    a message in the conversation flow. *)
Definition shorten (content : string) : string :=
  if (300 <? String.length content)%nat
  then String.substring 0 297 content +:+ "..."
  else content.

(** ** Vocabulary of the properties *)

(** Whether the round of the loop for [e] gets past [llm_models.add]:
    the model of an [llm_call_start] event must be hashable. *)
Definition model_hashable (e : event) : bool :=
  match payload e with
  | LlmRequest _ _ model _ => hashable model
  | _ => true
  end.

(** The state that a round of the loop leaves when it does not raise. *)
Definition scan_step (a : scan) (e : event) : scan :=
  let counts := count_up (event_counts a) (type e) in
  let names := set_add name_eqb (source_name e) (agent_names a) in
  match payload e with
  | FunctionCall fn _ _ =>
      {| event_counts := counts; agent_names := names;
         function_names := set_add name_eqb fn (function_names a);
         llm_models := llm_models a; scan_status := scan_status a |}
  | LlmRequest _ _ model _ =>
      {| event_counts := counts; agent_names := names;
         function_names := function_names a;
         llm_models := set_add py_eqb model (llm_models a);
         scan_status := scan_status a |}
  | EventState name data =>
      {| event_counts := counts; agent_names := names;
         function_names := function_names a;
         llm_models := llm_models a;
         scan_status :=
           if (is_received_message name && contains "exitcode" (py_str data))%bool
           then Failed else scan_status a |}
  | _ =>
      {| event_counts := counts; agent_names := names;
         function_names := function_names a;
         llm_models := llm_models a; scan_status := scan_status a |}
  end.

(** The events of [l] filed under [sid], in the order of [l]. *)
Definition timeline_of (sid : ident) (l : list event) : list event :=
  List.filter (fun e => bool_decide (session_id e = Some sid)) l.

(** Non-decreasing timestamps; both must be there. *)
Definition ts_le (a b : event) : Prop :=
  match timestamp a, timestamp b with
  | Some x, Some y => x <= y
  | _, _ => False
  end.

(** The order the sort establishes on its keys. *)
Definition key_le (a b : event) : Prop := sort_key a <= sort_key b.

(** The keys [extract_tokens] reads in the usage dict. *)
Definition usage_keys : list string :=
  ["total_tokens"; "prompt_tokens"; "completion_tokens"].

(** [event['details']['data']], the parsed state of an events-table row. *)
Definition event_data (e : event) : option json :=
  match payload e with
  | EventState _ data => Some data
  | _ => None
  end.

(** A received message whose payload, printed, has "exitcode" in it. *)
Definition mentions_exitcode (e : event) : Prop :=
  type e = event_received_message /\
  exists data, event_data e = Some data /\ contains "exitcode" (py_str data) = true.

(** What [load_database] derives for one row. *)
Definition derived_for (r : cc_row) (d : cc_enriched) : Prop :=
  cc_base d = normalize_source_name r
  /\ extract_tokens (cc_response_dict r)
     = Ok (cc_total_tokens d, cc_prompt_tokens d, cc_completion_tokens d)
  /\ (cc_total_tokens d = 0 ->
      cc_cost_per_token d = 0%float /\ cc_completion_ratio d = 0%float)
  /\ (0 < cc_total_tokens d ->
      cc_cost_per_token d = PrimFloat.div (cc_cost r) (float_of_Z (cc_total_tokens d))
      /\ cc_completion_ratio d
         = PrimFloat.div (float_of_Z (cc_completion_tokens d))
             (float_of_Z (cc_total_tokens d))).

(** The metrics [main] computes for the session [sid] of the view. *)
Definition session_metrics (t : tables) (sid : ident)
    : option (result (option SessionMetrics)) :=
  (fun evs => calculate_session_metrics sid evs (chat_completions t))
    <$> build_unified_session_view t !! sid.

(** The same tables with another function-call table. *)
Definition with_function_calls (t : tables) (rows : list function_call_row) : tables :=
  {| agents := agents t;
     chat_completions := chat_completions t;
     events := events t;
     function_calls := rows;
     oai_clients := oai_clients t;
     oai_wrappers := oai_wrappers t |}.

(** The same function-call row with another session cell. *)
Definition with_fc_session_id (r : function_call_row) (s : option ident)
    : function_call_row :=
  {| fc_source_id := fc_source_id r;
     fc_session_id := s;
     fc_timestamp := fc_timestamp r;
     fc_source_name := fc_source_name r;
     fc_function_name := fc_function_name r;
     fc_args_dict := fc_args_dict r;
     fc_returns_dict := fc_returns_dict r |}.

(** The assignments [id_to_session[k] = s] that one row makes, in the
    order of the source. *)
Definition assignment (k : option ident) (s : ident) : list (ident * ident) :=
  match k with
  | Some k => [(k, s)]
  | None => []
  end.

Definition agent_assignments (r : agent_row) : list (ident * ident) :=
  match ag_session_id r with
  | Some s => assignment (ag_wrapper_id r) s ++ assignment (ag_agent_id r) s
  | None => []
  end.

Definition client_assignments (r : client_row) : list (ident * ident) :=
  match cl_session_id r with
  | Some s => assignment (cl_client_id r) s ++ assignment (cl_wrapper_id r) s
  | None => []
  end.

Definition wrapper_assignments (r : wrapper_row) : list (ident * ident) :=
  match wr_session_id r with
  | Some s => assignment (wr_wrapper_id r) s
  | None => []
  end.

(** All assignments of the three loops, first to last. *)
Definition assignments (t : tables) : list (ident * ident) :=
  List.flat_map agent_assignments (agents t)
  ++ List.flat_map client_assignments (oai_clients t)
  ++ List.flat_map wrapper_assignments (oai_wrappers t).

(** The session of the last assignment to [x] in a log. *)
Definition last_assigned (x : ident) (log : list (ident * ident)) : option ident :=
  snd <$> last (List.filter (fun p => bool_decide (fst p = x)) log).

(** Some row of the three configuration tables has the session id [s]
    and carries [x] in one of the identifier columns its loop reads. *)
Definition registers (t : tables) (x s : ident) : Prop :=
  (exists r, In r (agents t) /\ ag_session_id r = Some s
             /\ (ag_wrapper_id r = Some x \/ ag_agent_id r = Some x))
  \/ (exists r, In r (oai_clients t) /\ cl_session_id r = Some s
                /\ (cl_client_id r = Some x \/ cl_wrapper_id r = Some x))
  \/ (exists r, In r (oai_wrappers t) /\ wr_session_id r = Some s
                /\ wr_wrapper_id r = Some x).

(** Running a log of assignments on a dict. *)
Definition replay (log : list (ident * ident)) (m : gmap ident ident)
    : gmap ident ident :=
  fold_left (fun m p => <[fst p := snd p]> m) log m.

(** How many events of a timeline have the type [ty]. *)
Definition count_type (ty : event_type) (evs : list event) : nat :=
  length (List.filter (fun e => bool_decide (type e = ty)) evs).

(** A chat-completion row that gives session [sid] an [llm_call_start]
    event. *)
Definition starts_in (sid : ident) (r : cc_row) : bool :=
  bool_decide (cc_session_id r = Some sid) && notna (cc_start_time r).

(** What the loop over the events [l] adds to the three sets, from the
    state [a0] to the state [a]. *)
Definition names_invariant (l : list event) (a0 a : scan) : Prop :=
  (List.NoDup (agent_names a0) -> List.NoDup (agent_names a))
  /\ (List.NoDup (function_names a0) -> List.NoDup (function_names a))
  /\ (forall x, In x (agent_names a) <->
                In x (agent_names a0) \/ exists e, In e l /\ source_name e = x)
  /\ (forall f, In f (function_names a) <->
                In f (function_names a0)
                \/ exists e args ret, In e l /\ payload e = FunctionCall f args ret)
  /\ (List.NoDup (List.map py_key (llm_models a0)) ->
      List.NoDup (List.map py_key (llm_models a)))
  /\ (forall model, In model (llm_models a) ->
                In model (llm_models a0)
                \/ exists e i req w, In e l /\ payload e = LlmRequest i req model w)
  /\ (forall model, In model (llm_models a0) -> In model (llm_models a))
  /\ (forall e i req model w, In e l -> payload e = LlmRequest i req model w ->
                In (py_key model) (List.map py_key (llm_models a))).

(** The total token count that the response of a row reports, 0 when
    it cannot be read. *)
Definition usage_total (r : cc_row) : Z :=
  match extract_tokens (cc_response_dict r) with
  | Ok (total, _, _) => total
  | Raise _ => 0
  end.

(** The rows of a chat-completion table that carry the session id
    [sid]. *)
Definition rows_of_session (sid : ident) (rows : list cc_row) : list cc_row :=
  List.filter (fun r => bool_decide (cc_session_id r = Some sid)) rows.

(** The sum of the cost cells, and of the token counts, over the rows
    of the chat-completion table whose session id is [sid], written as
    one pass over the table. *)
Definition cost_of_session (sid : ident) (rows : list cc_enriched) : float :=
  fold_left
    (fun acc r =>
       if bool_decide (cc_session_id (cc_base r) = Some sid) then
         if PrimFloat.is_nan (cc_cost (cc_base r)) then acc
         else PrimFloat.add acc (cc_cost (cc_base r))
       else acc)
    rows 0%float.

Definition tokens_of_session (sid : ident) (rows : list cc_enriched) : Z :=
  foldr
    (fun r acc =>
       if bool_decide (cc_session_id (cc_base r) = Some sid)
       then cc_total_tokens r + acc else acc)
    0 rows.

(** ** The scenario of the specification *)

Module Scenario.

Definition S1 := IdStr "S1".
Definition W1 := IdStr "W1".
Definition C1 := IdStr "C1".
Definition I1 := IdStr "I1".

Definition agent1 : agent_row :=
  {| ag_session_id := Some S1; ag_wrapper_id := Some W1; ag_agent_id := Some (IdInt 7);
     ag_timestamp := Some 10; ag_source_name := Some "CEO";
     ag_agent_class_name := Some "ConversableAgent"; ag_config_dict := JObj [] |}.

Definition completion1 : cc_row :=
  {| cc_session_id := Some S1; cc_client_id := Some C1; cc_wrapper_id := Some W1;
     cc_invocation_id := Some I1; cc_start_time := Some 20; cc_end_time := Some 30;
     cc_source_name := Some " ceo";
     cc_request_dict := [("model", JStr "gpt-4")];
     cc_response_dict := [("usage", JObj [("total_tokens", JInt 100)])];
     cc_cost := 0x1.47ae147ae147bp-6%float; cc_latency := 0%float; cc_is_cached := 0 |}.

Definition call1 : function_call_row :=
  {| fc_source_id := Some W1; fc_session_id := None; fc_timestamp := Some 40;
     fc_source_name := Some "CEO"; fc_function_name := Some "lookup";
     fc_args_dict := JObj []; fc_returns_dict := JObj [] |}.

Definition snap : snapshot :=
  {| s_agents := [agent1]; s_chat_completions := [completion1]; s_events := [];
     s_function_calls := [call1]; s_oai_clients := []; s_oai_wrappers := [] |}.

Definition summary (t : tables) (sid : ident) :=
  match build_unified_session_view t !! sid with
  | Some evs =>
      match calculate_session_metrics sid evs (chat_completions t) with
      | Ok (Some m) =>
          Some (List.map type evs, m_num_llm_calls m, m_num_function_calls m,
                m_total_cost m, m_total_tokens m, m_status m)
      | _ => None
      end
  | None => None
  end.

End Scenario.

(** ** Sample snapshots *)

Module Samples.

Definition SA := IdStr "A".
Definition SB := IdStr "B".
Definition S1 := IdStr "S1".
Definition X := IdStr "X".

Definition agent (session wrapper : option ident) (ts : option Z) : agent_row :=
  {| ag_session_id := session; ag_wrapper_id := wrapper; ag_agent_id := None;
     ag_timestamp := ts; ag_source_name := Some "CEO";
     ag_agent_class_name := Some "ConversableAgent"; ag_config_dict := JObj [] |}.

Definition wrapper (session wrapper : option ident) (ts : option Z) : wrapper_row :=
  {| wr_session_id := session; wr_wrapper_id := wrapper; wr_timestamp := ts;
     wr_config_dict := JObj [] |}.

Definition completion (session : option ident) (start_time end_time : option Z)
    (response : dict) (cost : float) : cc_row :=
  {| cc_session_id := session; cc_client_id := Some (IdStr "C1");
     cc_wrapper_id := Some (IdStr "W1"); cc_invocation_id := Some (IdStr "I1");
     cc_start_time := start_time; cc_end_time := end_time;
     cc_source_name := Some "CEO";
     cc_request_dict := [("model", JStr "gpt-4")];
     cc_response_dict := response;
     cc_cost := cost; cc_latency := 0%float; cc_is_cached := 0 |}.

Definition usage (total prompt completion : json) : dict :=
  [("usage", JObj [("total_tokens", total); ("prompt_tokens", prompt);
                   ("completion_tokens", completion)])].

Definition call (source : option ident) (ts : option Z) : function_call_row :=
  {| fc_source_id := source; fc_session_id := Some S1; fc_timestamp := ts;
     fc_source_name := Some "CEO"; fc_function_name := Some "lookup";
     fc_args_dict := JObj []; fc_returns_dict := JObj [] |}.

Definition message (session : option ident) (ts : option Z) (name : string)
    (state : json) : event_row :=
  {| ev_session_id := session; ev_source_id := Some (IdInt 7); ev_timestamp := ts;
     ev_event_name := Some name; ev_source_name := Some "CTO";
     ev_state_dict := state |}.

Definition two_cents : float := 0x1.47ae147ae147bp-6%float.

Definition no_tables : tables :=
  {| agents := []; chat_completions := Plain []; events := [];
     function_calls := []; oai_clients := []; oai_wrappers := [] |}.

(** The same wrapper id under two sessions. *)
Definition overwrite : tables :=
  {| agents := [agent (Some SA) (Some X) (Some 1)];
     chat_completions := Plain []; events := []; function_calls := [];
     oai_clients := [];
     oai_wrappers := [wrapper (Some SB) (Some X) (Some 2)] |}.

(** Two sessions whose events interleave in time. *)
Definition interleaved : tables :=
  {| agents := [agent (Some S1) (Some X) (Some 30); agent (Some SA) None (Some 5);
                agent (Some S1) None None];
     chat_completions := Plain [completion (Some S1) (Some 20) (Some 10) [] two_cents];
     events := [message (Some S1) (Some 20) "received_message" (JObj []);
                message None (Some 1) "reply" (JObj [])];
     function_calls := [call (Some X) (Some 20)];
     oai_clients := [];
     oai_wrappers := [] |}.

(** A call that never came back: no end time. *)
Definition unanswered : cc_row :=
  completion (Some S1) (Some 20) None [] two_cents.

Definition orphan_start : tables :=
  {| agents := []; chat_completions := Plain [unanswered]; events := [];
     function_calls := []; oai_clients := []; oai_wrappers := [] |}.

(** A message that reports an exit code, and one that does not. *)
Definition crashed : event :=
  state_event (message (Some S1) (Some 50) "received_message"
                 (JObj [("message", JObj [("content", JStr "exitcode: 1 (failed)")])])).

Definition greeting : event :=
  state_event (message (Some S1) (Some 40) "received_message"
                 (JObj [("message", JObj [("content", JStr "hello")])])).

Definition enriched (r : cc_row) (total completion : Z) : cc_enriched :=
  {| cc_base := r; cc_total_tokens := total; cc_prompt_tokens := total - completion;
     cc_completion_tokens := completion;
     cc_cost_per_token := cost_per_token (cc_cost r) total;
     cc_completion_ratio := completion_ratio completion total |}.

(** Three calls, two of them of session [S1]; the second has neither
    start nor end time. *)
Definition ledger : list cc_enriched :=
  [enriched (completion (Some S1) (Some 20) (Some 30) [] two_cents) 100 40;
   enriched (completion (Some S1) None None [] two_cents) 50 10;
   enriched (completion (Some SA) (Some 21) (Some 31) [] two_cents) 7 7].

(** Usage counts that cannot be integers, next to a sound row. *)
Definition garbled : snapshot :=
  {| s_agents := [];
     s_chat_completions :=
       [completion (Some S1) (Some 1) (Some 2) (usage (JInt 10) (JInt 4) (JInt 6)) two_cents;
        completion (Some S1) (Some 3) (Some 4) (usage (JStr "abc") (JInt 4) (JInt 6))
          two_cents];
     s_events := []; s_function_calls := []; s_oai_clients := [];
     s_oai_wrappers := [] |}.

(** A call that used no token, a call without usage, and a paid one. *)
Definition billed : list cc_row :=
  [completion (Some S1) (Some 1) (Some 2) (usage (JInt 0) (JInt 0) (JInt 0)) two_cents;
   completion (Some S1) (Some 3) (Some 4) [] two_cents;
   completion (Some S1) (Some 5) (Some 6) (usage (JInt 100) (JInt 75) (JInt 25))
     two_cents].

(** One agent of session [S1] behind wrapper [X], a call by [X], and a
    call by a component that no configuration table knows. *)
Definition stray_call : function_call_row := call (Some (IdStr "W9")) (Some 25).

Definition with_stray : tables :=
  {| agents := [agent (Some S1) (Some X) (Some 10)];
     chat_completions := Enriched ledger; events := [];
     function_calls := [call (Some X) (Some 20); stray_call];
     oai_clients := []; oai_wrappers := [] |}.

(** A call with an end time and no start time. *)
Definition unstarted : cc_row :=
  completion (Some S1) None (Some 30) [] two_cents.

Definition orphan_end : tables :=
  {| agents := []; chat_completions := Plain [unstarted]; events := [];
     function_calls := []; oai_clients := []; oai_wrappers := [] |}.

(** A session whose only call has neither start nor end time. *)
Definition untimed : cc_enriched :=
  enriched (completion (Some S1) None None [] two_cents) 50 10.

Definition unseen_call : tables :=
  {| agents := [agent (Some S1) (Some X) (Some 10)];
     chat_completions := Enriched [untimed]; events := [];
     function_calls := []; oai_clients := []; oai_wrappers := [] |}.

End Samples.

(** ** More sample snapshots *)

Module MoreSamples.

(** A wrapper whose identifier is the number 0, and a call by it. *)
Definition zero_wrapper : tables :=
  {| agents := [Samples.agent (Some Samples.S1) (Some (IdInt 0)) (Some 1)];
     chat_completions := Plain []; events := [];
     function_calls := [Samples.call (Some (IdInt 0)) (Some 2)];
     oai_clients := []; oai_wrappers := [] |}.

(** A session that is only talk: two received messages. *)
Definition talk : tables :=
  {| agents := []; chat_completions := Plain [];
     events :=
       [Samples.message (Some Samples.S1) (Some 40) "received_message"
          (JObj [("message", JObj [("content", JStr "hello")])]);
        Samples.message (Some Samples.S1) (Some 50) "received_message"
          (JObj [("message", JObj [("content", JStr "exitcode: 1 (failed)")])])];
     function_calls := []; oai_clients := []; oai_wrappers := [] |}.

(** A received message whose data has the exit code in its top-level
    content. *)
Definition flagged : event :=
  state_event (Samples.message (Some Samples.S1) (Some 60) "received_message"
                 (JObj [("content", JStr "exitcode: 1"); ("name", JStr "executor")])).

(** The wrapper [X] registered twice by the wrappers table, under [SB]
    and then under [S1], after the agents table has it under [SA]. *)
Definition rebound : tables :=
  {| agents := [Samples.agent (Some Samples.SA) (Some Samples.X) (Some 1)];
     chat_completions := Plain []; events := []; function_calls := [];
     oai_clients := [];
     oai_wrappers := [Samples.wrapper (Some Samples.SB) (Some Samples.X) (Some 2);
                      Samples.wrapper (Some Samples.S1) (Some Samples.X) (Some 3)] |}.




(** A call whose request names a list of models. *)
Definition two_models : cc_row :=
  {| cc_session_id := Some Samples.S1; cc_client_id := Some (IdStr "C1");
     cc_wrapper_id := Some (IdStr "W1"); cc_invocation_id := Some (IdStr "I1");
     cc_start_time := Some 20; cc_end_time := Some 30;
     cc_source_name := Some "CEO";
     cc_request_dict := [("model", JList [JStr "gpt-4"; JStr "gpt-3.5"])];
     cc_response_dict := [];
     cc_cost := Samples.two_cents; cc_latency := 0%float; cc_is_cached := 0 |}.

Definition listed_models : tables :=
  {| agents := []; chat_completions := Enriched [Samples.enriched two_models 10 5];
     events := []; function_calls := []; oai_clients := []; oai_wrappers := [] |}.


(** Requests whose models are the number 1 and the boolean true. *)
Definition numbered (model : json) (start : Z) : cc_row :=
  {| cc_session_id := Some Samples.S1; cc_client_id := Some (IdStr "C1");
     cc_wrapper_id := Some (IdStr "W1"); cc_invocation_id := Some (IdStr "I1");
     cc_start_time := Some start; cc_end_time := None;
     cc_source_name := Some "CEO";
     cc_request_dict := [("model", model)];
     cc_response_dict := [];
     cc_cost := Samples.two_cents; cc_latency := 0%float; cc_is_cached := 0 |}.

End MoreSamples.

(** ** Sample runs of the Python primitives *)

Example str_int_samples :
  (str_int 0, str_int 7, str_int 100, str_int (-42), str_int 1024)
  = ("0", "7", "100", "-42", "1024").
Proof. reflexivity. Qed.

Example py_str_sample :
  py_str (JObj [("message", JObj [("content", JStr "exitcode: 1"); ("n", JInt 3)]);
                ("ok", JBool false); ("l", JList [JInt 1; JNull])])
  = "{'message': {'content': 'exitcode: 1', 'n': 3}, 'ok': False, 'l': [1, None]}".
Proof. reflexivity. Qed.

Example py_int_samples :
  (py_int (JStr "abc"), py_int (JStr " 12 "), py_int (JStr "-1_000"), py_int (JStr "1__0"),
   py_int (JStr ""), py_int (JInt 5), py_int JNull, py_int (JBool true))
  = (Raise ValueError, Ok 12, Ok (-1000), Raise ValueError,
     Raise ValueError, Ok 5, Raise TypeError, Ok 1).
Proof. reflexivity. Qed.

(** ** The scenario of the specification, run through the model *)

Example scenario_runs :
  (load_database Scenario.snap ≫= fun t => Scenario.summary t Scenario.S1)
  = Some ([agent_config; llm_call_start; llm_call_end; function_call],
          1%nat, 1%nat, 0x1.47ae147ae147bp-6%float, 100, Completed).
Proof. vm_compute. reflexivity. Qed.

(** A snapshot without any chat completion: the frame keeps the columns
    of the database, and the metrics of its session stop at the lookup
    of the token column. *)
Example metrics_need_token_columns :
  (load_database
     {| s_agents := [Scenario.agent1]; s_chat_completions := []; s_events := [];
        s_function_calls := []; s_oai_clients := []; s_oai_wrappers := [] |}
   ≫= fun t => session_metrics t Scenario.S1)
  = Some (Raise (KeyError "total_tokens")).
Proof. vm_compute. reflexivity. Qed.

(** ** The identifier resolver *)

Section Resolver.

Implicit Types (m base : gmap ident ident) (k : option ident) (s : ident).

Lemma register_union k s m base :
  register k s (m ∪ base) = register k s m ∪ base.
Proof. destruct k as [x|]; simpl; [apply insert_union_l | reflexivity]. Qed.

Lemma register_agent_union m base r :
  register_agent (m ∪ base) r = register_agent m r ∪ base.
Proof.
  unfold register_agent. destruct (ag_session_id r); [|reflexivity].
  by rewrite !register_union.
Qed.

Lemma register_client_union m base r :
  register_client (m ∪ base) r = register_client m r ∪ base.
Proof.
  unfold register_client. destruct (cl_session_id r); [|reflexivity].
  by rewrite !register_union.
Qed.

Lemma register_wrapper_union m base r :
  register_wrapper (m ∪ base) r = register_wrapper m r ∪ base.
Proof.
  unfold register_wrapper. destruct (wr_session_id r); [|reflexivity].
  by rewrite register_union.
Qed.

(** A pass over a table on top of [base] is the table's own
    registrations laid over [base]. *)
Lemma fold_left_union {R} (step : gmap ident ident -> R -> gmap ident ident)
    (Hstep : forall m base r, step (m ∪ base) r = step m r ∪ base)
    (rows : list R) m base :
  fold_left step rows (m ∪ base) = fold_left step rows m ∪ base.
Proof.
  revert m. induction rows as [|r rows IH]; intros m; simpl; [reflexivity|].
  by rewrite Hstep, IH.
Qed.

Lemma register_agents_over rows base :
  register_agents rows base = register_agents rows ∅ ∪ base.
Proof.
  unfold register_agents.
  rewrite <- (fold_left_union _ register_agent_union). by rewrite (left_id_L ∅ (∪)).
Qed.

Lemma register_clients_over rows base :
  register_clients rows base = register_clients rows ∅ ∪ base.
Proof.
  unfold register_clients.
  rewrite <- (fold_left_union _ register_client_union). by rewrite (left_id_L ∅ (∪)).
Qed.

Lemma register_wrappers_over rows base :
  register_wrappers rows base = register_wrappers rows ∅ ∪ base.
Proof.
  unfold register_wrappers.
  rewrite <- (fold_left_union _ register_wrapper_union). by rewrite (left_id_L ∅ (∪)).
Qed.

(** The map is the ordered merge of the three tables: wrappers over
    clients over agents. *)
Lemma id_to_session_merge t :
  id_to_session t
  = register_wrappers (oai_wrappers t) ∅
    ∪ (register_clients (oai_clients t) ∅ ∪ register_agents (agents t) ∅).
Proof.
  unfold id_to_session.
  by rewrite register_wrappers_over, register_clients_over.
Qed.

(** The last row of the wrappers table that registers [x] decides. *)
Lemma register_wrappers_last pre r post x b :
  wr_wrapper_id r = Some x ->
  wr_session_id r = Some b ->
  Forall (fun r' => wr_session_id r' = None \/ wr_wrapper_id r' <> Some x) post ->
  register_wrappers (pre ++ r :: post) ∅ !! x = Some b.
Proof.
  intros Hx Hb Hpost. unfold register_wrappers.
  rewrite fold_left_app. simpl.
  set (m := register_wrapper _ r).
  assert (Hm : m !! x = Some b).
  { subst m. unfold register_wrapper. rewrite Hb, Hx. simpl. apply lookup_insert_eq. }
  clearbody m. revert m Hm.
  induction Hpost as [|r' post Hr' _ IH]; intros m Hm; simpl; [exact Hm|].
  apply IH. unfold register_wrapper.
  destruct Hr' as [Hn|Hn].
  - by rewrite Hn.
  - destruct (wr_session_id r'); [|exact Hm].
    destruct (wr_wrapper_id r') as [y|] eqn:Hy; simpl; [|exact Hm].
    rewrite lookup_insert_ne; [exact Hm|]. intros ->. by apply Hn.
Qed.

End Resolver.

(** ** The session aggregator *)

Section Aggregator.

Implicit Types (e : event) (l : list event) (sd : gmap ident (list event)).

Lemma fold_append_lookup l sd sid :
  fold_left append_event l sd !! sid
  = match timeline_of sid l with
    | [] => sd !! sid
    | evs => Some (default [] (sd !! sid) ++ evs)
    end.
Proof.
  revert sd. induction l as [|e l IH]; intros sd; simpl; [reflexivity|].
  rewrite IH. unfold append_event.
  destruct (session_id e) as [s|] eqn:Hs.
  - case_bool_decide as Heq.
    + inversion Heq; subst s. rewrite lookup_insert_eq. simpl.
      destruct (timeline_of sid l); [reflexivity|].
      by rewrite <- app_assoc.
    + rewrite lookup_insert_ne; [reflexivity|]. intros ->. by apply Heq.
  - rewrite bool_decide_eq_false_2 by discriminate. reflexivity.
Qed.

(** A session's bucket is the sub-list of its events, and a session
    without events has no bucket. *)
Lemma group_by_session_lookup l sid :
  group_by_session l !! sid
  = match timeline_of sid l with [] => None | evs => Some evs end.
Proof.
  unfold group_by_session. rewrite fold_append_lookup, lookup_empty.
  destruct (timeline_of sid l); reflexivity.
Qed.

Lemma insert_by_key_perm e l : Permutation (insert_by_key e l) (e :: l).
Proof.
  induction l as [|x l IH]; simpl; [reflexivity|].
  destruct (sort_key e <=? sort_key x); [reflexivity|].
  rewrite IH. apply perm_swap.
Qed.

Lemma sorted_perm l : Permutation (sorted l) l.
Proof.
  induction l as [|e l IH]; simpl; [reflexivity|].
  rewrite insert_by_key_perm. by constructor.
Qed.

Lemma insert_by_key_sorted e l :
  StronglySorted key_le l -> StronglySorted key_le (insert_by_key e l).
Proof.
  induction 1 as [|x l Hl IH Hx]; simpl; [repeat constructor|].
  destruct (Z.leb_spec (sort_key e) (sort_key x)) as [Hle|Hgt].
  - constructor; [by constructor|].
    constructor; [exact Hle|].
    eapply Forall_impl; [exact Hx|]. unfold key_le. intros; simpl in *; lia.
  - constructor; [exact IH|].
    rewrite insert_by_key_perm. constructor; [unfold key_le; lia | exact Hx].
Qed.

Lemma sorted_sorted l : StronglySorted key_le (sorted l).
Proof.
  induction l as [|e l IH]; simpl; [constructor|].
  by apply insert_by_key_sorted.
Qed.

Lemma StronglySorted_filter {A} (R : A -> A -> Prop) (f : A -> bool) (l : list A) :
  StronglySorted R l -> StronglySorted R (List.filter f l).
Proof.
  induction 1 as [|x l Hl IH Hx]; simpl; [constructor|].
  destruct (f x); [|exact IH].
  constructor; [exact IH|].
  rewrite List.Forall_forall in *. intros y Hy.
  apply Hx. by apply List.filter_In in Hy as [? _].
Qed.

Lemma insert_by_key_head e l :
  List.Forall (key_le e) l -> insert_by_key e l = e :: l.
Proof.
  destruct l as [|x l]; [reflexivity|]. intros H. simpl.
  apply List.Forall_cons_iff in H as [Hx _]. unfold key_le in Hx.
  destruct (Z.leb_spec (sort_key e) (sort_key x)); [reflexivity | lia].
Qed.

(** The sort is stable: selecting events before or after sorting gives
    the same list, so events with equal timestamps stay in the order in
    which they were produced. *)
Lemma filter_insert_by_key (f : event -> bool) e l :
  StronglySorted key_le l ->
  List.filter f (insert_by_key e l)
  = if f e then insert_by_key e (List.filter f l) else List.filter f l.
Proof.
  induction 1 as [|x l Hl IH Hx]; simpl; [by destruct (f e)|].
  destruct (Z.leb_spec (sort_key e) (sort_key x)) as [Hle|Hgt]; simpl.
  - destruct (f e); [|reflexivity].
    symmetry. apply insert_by_key_head.
    assert (Hall : List.Forall (key_le e) (x :: l)).
    { constructor; [exact Hle|]. eapply Forall_impl; [exact Hx|].
      unfold key_le. intros; simpl in *; lia. }
    rewrite List.Forall_forall in *. intros y Hy.
    apply Hall. change (In y (List.filter f (x :: l))) in Hy.
    by apply List.filter_In in Hy as [? _].
  - rewrite IH. destruct (f x), (f e); simpl; try reflexivity.
    destruct (Z.leb_spec (sort_key e) (sort_key x)); [lia | reflexivity].
Qed.

Lemma sorted_filter (f : event -> bool) l :
  List.filter f (sorted l) = sorted (List.filter f l).
Proof.
  induction l as [|e l IH]; simpl; [reflexivity|].
  rewrite filter_insert_by_key by apply sorted_sorted.
  rewrite IH. by destruct (f e).
Qed.

Lemma valid_events_In e l :
  In e (valid_events l) <-> In e l /\ timestamp e <> None.
Proof.
  unfold valid_events. rewrite List.filter_In.
  destruct (timestamp e); simpl; split; intros [? ?]; split; congruence.
Qed.

Lemma timeline_of_In e sid l :
  In e (timeline_of sid l) <-> In e l /\ session_id e = Some sid.
Proof.
  unfold timeline_of. rewrite List.filter_In.
  by rewrite bool_decide_eq_true.
Qed.

Lemma sorted_In e l : In e (sorted l) <-> In e l.
Proof.
  rewrite <- !list_elem_of_In.
  split; intros H; [by rewrite <- (sorted_perm l) | by rewrite (sorted_perm l)].
Qed.

(** What a timeline of the view is made of. *)
Lemma build_lookup_Some t sid evs :
  build_unified_session_view t !! sid = Some evs ->
  evs = timeline_of sid (sorted (valid_events (unified_events t))) /\ evs <> [].
Proof.
  unfold build_unified_session_view. rewrite group_by_session_lookup.
  destruct (timeline_of _ _) eqn:E; [discriminate|].
  intros [= <-]. split; [reflexivity | discriminate].
Qed.

(** A timeline is its session's events with a timestamp, sorted on
    their own. *)
Lemma build_lookup_sorted t sid evs :
  build_unified_session_view t !! sid = Some evs ->
  evs = sorted (timeline_of sid (valid_events (unified_events t))).
Proof.
  intros [-> _]%build_lookup_Some. apply sorted_filter.
Qed.

Lemma build_In t sid evs e :
  build_unified_session_view t !! sid = Some evs ->
  In e evs <->
  In e (unified_events t) /\ timestamp e <> None /\ session_id e = Some sid.
Proof.
  intros [-> _]%build_lookup_Some.
  rewrite timeline_of_In, sorted_In, valid_events_In. tauto.
Qed.

(** An event with a timestamp and a session id is in that session's
    timeline. *)
Lemma build_has_event t sid e :
  In e (unified_events t) -> timestamp e <> None -> session_id e = Some sid ->
  exists evs, build_unified_session_view t !! sid = Some evs /\ In e evs.
Proof.
  intros Hin Hts Hs.
  assert (He : In e (timeline_of sid (sorted (valid_events (unified_events t))))).
  { rewrite timeline_of_In, sorted_In, valid_events_In. tauto. }
  unfold build_unified_session_view. rewrite group_by_session_lookup.
  destruct (timeline_of _ _) as [|x l] eqn:E; [destruct He|].
  eexists; split; [reflexivity | exact He].
Qed.

End Aggregator.

(** ** Token enrichment *)

Section Enrichment.

Lemma mapM_raise {A B} (f : A -> result B) (l : list A) (a : A) (e : exn) :
  In a l -> f a = Raise e -> exists e', mapM f l = Raise e'.
Proof.
  induction l as [|x l IH]; intros Hin Hf; [destruct Hin|].
  cbn [mapM]. destruct Hin as [->|Hin].
  - rewrite Hf. by eexists.
  - destruct (f x) as [b|e0]; [|by eexists].
    destruct (IH Hin Hf) as [e' ->]. by eexists.
Qed.

(** A failing [mapM] fails with the exception of one of the elements. *)
Lemma mapM_raise_inv {A B} (f : A -> result B) (l : list A) (e : exn) :
  mapM f l = Raise e -> exists a, In a l /\ f a = Raise e.
Proof.
  induction l as [|x l IH]; cbn [mapM]; [discriminate|].
  destruct (f x) as [b|e0] eqn:Hx.
  - destruct (mapM f l) as [bs|e1]; [discriminate|].
    intros [= <-]. destruct (IH eq_refl) as (a & Ha & Hfa).
    exists a. split; [by right | exact Hfa].
  - intros [= <-]. exists x. split; [by left | exact Hx].
Qed.

Lemma mapM_ok {A B} (f : A -> result B) (l : list A) :
  (forall a, In a l -> exists b, f a = Ok b) ->
  exists bs, mapM f l = Ok bs /\ Forall2 (fun a b => f a = Ok b) l bs.
Proof.
  induction l as [|x l IH]; intros H; cbn [mapM].
  - exists []. split; [reflexivity | constructor].
  - destruct (H x (or_introl eq_refl)) as [b Hb].
    destruct IH as (bs & Hbs & Hall); [intros a Ha; apply H; by right|].
    exists (b :: bs). rewrite Hb, Hbs. split; [reflexivity | by constructor].
Qed.

(** [extract_tokens] spelled out on a response whose usage is a dict. *)
Lemma extract_tokens_usage (d u : dict) :
  dict_get "usage" d (JObj []) = JObj u ->
  extract_tokens d
  = (total ← py_int (dict_get "total_tokens" u (JInt 0));
     prompt ← py_int (dict_get "prompt_tokens" u (JInt 0));
     completion ← py_int (dict_get "completion_tokens" u (JInt 0));
     mret (total, prompt, completion)).
Proof. unfold extract_tokens. intros ->. reflexivity. Qed.

Lemma dict_get_present k (u : dict) v dflt :
  dict_lookup k u = Some v -> dict_get k u dflt = v.
Proof. unfold dict_get. by intros ->. Qed.

Lemma dict_get_absent k (u : dict) dflt :
  dict_lookup k u = None -> dict_get k u dflt = dflt.
Proof. unfold dict_get. by intros ->. Qed.

Lemma extract_tokens_raise (d u : dict) k v e :
  dict_get "usage" d (JObj []) = JObj u ->
  In k usage_keys ->
  dict_lookup k u = Some v ->
  py_int v = Raise e ->
  exists e', extract_tokens d = Raise e'.
Proof.
  intros Hu Hk Hv He. rewrite (extract_tokens_usage _ _ Hu).
  destruct Hk as [<-|[<-|[<-|[]]]];
    rewrite (dict_get_present _ _ _ _ Hv), ?He; cbn.
  - by eexists.
  - destruct (py_int (dict_get "total_tokens" u _)); cbn; by eexists.
  - destruct (py_int (dict_get "total_tokens" u _)); cbn; [|by eexists].
    destruct (py_int (dict_get "prompt_tokens" u _)); cbn; by eexists.
Qed.

Lemma extract_tokens_ok_iff (d u : dict) total prompt completion :
  dict_get "usage" d (JObj []) = JObj u ->
  extract_tokens d = Ok (total, prompt, completion) <->
  py_int (dict_get "total_tokens" u (JInt 0)) = Ok total
  /\ py_int (dict_get "prompt_tokens" u (JInt 0)) = Ok prompt
  /\ py_int (dict_get "completion_tokens" u (JInt 0)) = Ok completion.
Proof.
  intros Hu. rewrite (extract_tokens_usage _ _ Hu).
  destruct (py_int (dict_get "total_tokens" u _)) as [a|]; cbn;
    [|split; [discriminate | intros [? _]; discriminate]].
  destruct (py_int (dict_get "prompt_tokens" u _)) as [b|]; cbn;
    [|split; [discriminate | intros (_ & ? & _); discriminate]].
  destruct (py_int (dict_get "completion_tokens" u _)) as [c|]; cbn;
    [|split; [discriminate | intros (_ & _ & ?); discriminate]].
  split; [intros [= -> -> ->]; auto | intros ([= ->] & [= ->] & [= ->]); reflexivity].
Qed.

Lemma enrich_row_raise r e :
  extract_tokens (cc_response_dict r) = Raise e -> enrich_row r = Raise e.
Proof. unfold enrich_row. by intros ->. Qed.

Lemma enrich_row_ok r total prompt completion :
  extract_tokens (cc_response_dict r) = Ok (total, prompt, completion) ->
  enrich_row r
  = Ok {| cc_base := normalize_source_name r;
          cc_total_tokens := total;
          cc_prompt_tokens := prompt;
          cc_completion_tokens := completion;
          cc_cost_per_token := cost_per_token (cc_cost r) total;
          cc_completion_ratio := completion_ratio completion total |}.
Proof. unfold enrich_row. by intros ->. Qed.

Lemma load_database_raise s e :
  enrich_chat_completions (s_chat_completions s) = Raise e -> load_database s = None.
Proof. unfold load_database. by intros ->. Qed.

End Enrichment.

(** ** The metrics calculator *)

Section Metrics.

Implicit Types (e : event) (a : scan).

Lemma scan_event_step a e :
  scan_event a e = if model_hashable e then Ok (scan_step a e) else Raise TypeError.
Proof.
  unfold scan_event, scan_step, model_hashable.
  destruct (payload e); reflexivity.
Qed.

Lemma scan_all_spec (l : list event) a :
  scan_all l a
  = if forallb model_hashable l then Ok (fold_left scan_step l a) else Raise TypeError.
Proof.
  revert a. induction l as [|e l IH]; intros a; [reflexivity|].
  cbn [scan_all forallb fold_left]. rewrite scan_event_step.
  destruct (model_hashable e); cbn; [apply IH | reflexivity].
Qed.

Lemma scan_event_status a e :
  scan_status (scan_step a e) = Failed <->
  scan_status a = Failed \/ mentions_exitcode e.
Proof.
  unfold scan_step, mentions_exitcode, type, event_data.
  destruct (payload e) as [| name data | | | | |]; simpl;
    try (split; [by left | intros [H|[H _]]; [exact H | discriminate H]]).
  destruct (is_received_message name); simpl.
  - destruct (contains "exitcode" (py_str data)) eqn:Hc.
    + split; [|reflexivity]. intros _. right. split; [reflexivity|]. by exists data.
    + split; [by left|]. intros [H|[_ (d & [= <-] & Hd)]]; [exact H|congruence].
  - split; [by left|]. intros [H|[H _]]; [exact H | discriminate H].
Qed.

Lemma scan_fold_status (l : list event) a :
  scan_status (fold_left scan_step l a) = Failed <->
  scan_status a = Failed \/ List.Exists mentions_exitcode l.
Proof.
  revert a. induction l as [|e l IH]; intros a; simpl.
  - split; [by left|]. intros [H|H]; [exact H | inversion H].
  - rewrite IH, scan_event_status, List.Exists_cons. tauto.
Qed.


Lemma sum_tokens_from (l : list Z) (z : Z) : fold_left Z.add l z = z + sum_tokens l.
Proof.
  unfold sum_tokens. revert z. induction l as [|x l IH]; intros z; simpl; [lia|].
  rewrite IH, (IH (0 + x)). lia.
Qed.

Lemma sum_tokens_app (l1 l2 : list Z) :
  sum_tokens (l1 ++ l2) = sum_tokens l1 + sum_tokens l2.
Proof.
  unfold sum_tokens at 1. rewrite fold_left_app.
  fold (sum_tokens l1). apply sum_tokens_from.
Qed.

Lemma sum_tokens_cons (x : Z) (l : list Z) : sum_tokens (x :: l) = x + sum_tokens l.
Proof. apply (sum_tokens_app [x] l). Qed.

(** What comes out of [calculate_session_metrics], case by case. *)
Lemma calculate_cases sid (e0 : event) (rest : list event) df :
  calculate_session_metrics sid (e0 :: rest) df
  = if forallb model_hashable (e0 :: rest) then
      match df with
      | Plain _ => Raise (KeyError "total_tokens")
      | Enriched rows =>
          let a := fold_left scan_step (e0 :: rest) scan_init in
          let start_time := py_min (timestamp e0) (List.map timestamp rest) in
          let end_time := py_max (timestamp e0) (List.map timestamp rest) in
          Ok (Some {| m_session_id := sid;
                      m_start_time := start_time;
                      m_end_time := end_time;
                      m_duration := ts_sub end_time start_time;
                      m_status := scan_status a;
                      m_num_messages := event_counts a event_received_message;
                      m_num_llm_calls := event_counts a llm_call_start;
                      m_num_function_calls := event_counts a function_call;
                      m_agents := agent_names a;
                      m_functions := function_names a;
                      m_models := llm_models a;
                      m_total_cost :=
                        sum_cost (List.map (fun r => cc_cost (cc_base r))
                                    (session_rows sid rows));
                      m_total_tokens :=
                        sum_tokens (List.map cc_total_tokens (session_rows sid rows)) |})
      end
    else Raise TypeError.
Proof.
  cbn [calculate_session_metrics]. rewrite scan_all_spec.
  destruct (forallb model_hashable (e0 :: rest)); reflexivity.
Qed.

(** On a timeline that is not empty and whose models can be hashed, and
    a frame with the derived columns, the metrics come out. *)
Lemma calculate_returns sid (evs : list event) (rows : list cc_enriched) :
  evs <> [] ->
  forallb model_hashable evs = true ->
  exists m, calculate_session_metrics sid evs (Enriched rows) = Ok (Some m)
    /\ m_status m = scan_status (fold_left scan_step evs scan_init)
    /\ m_total_cost m
       = sum_cost (List.map (fun r => cc_cost (cc_base r)) (session_rows sid rows))
    /\ m_total_tokens m = sum_tokens (List.map cc_total_tokens (session_rows sid rows)).
Proof.
  destruct evs as [|e0 rest]; [congruence|]. intros _ Hh.
  rewrite calculate_cases, Hh.
  eexists. split; [reflexivity|]. simpl. auto.
Qed.

(** Metrics that come out tell that every model could be hashed and
    that the frame has the derived columns. *)
Lemma calculate_Some_inv sid (evs : list event) df m :
  calculate_session_metrics sid evs df = Ok (Some m) ->
  evs <> [] /\ forallb model_hashable evs = true /\ exists rows, df = Enriched rows.
Proof.
  destruct evs as [|e0 rest]; [discriminate|]. rewrite calculate_cases.
  destruct (forallb model_hashable (e0 :: rest)); [|discriminate].
  destruct df as [|rows]; [discriminate|]. intros _.
  split; [discriminate|]. split; [reflexivity|]. by exists rows.
Qed.

(** Whatever the frame, metrics that come out carry the status of the
    scan. *)
Lemma calculate_status sid (evs : list event) df m :
  calculate_session_metrics sid evs df = Ok (Some m) ->
  m_status m = scan_status (fold_left scan_step evs scan_init).
Proof.
  destruct evs as [|e0 rest]; [discriminate|]. rewrite calculate_cases.
  destruct (forallb model_hashable (e0 :: rest)); [|discriminate].
  destruct df; [discriminate|]. by intros [= <-].
Qed.

End Metrics.

(** ** The properties of the specification *)

Lemma StronglySorted_weaken {A} (R R' : A -> A -> Prop) (P : A -> Prop) (l : list A) :
  (forall a b, P a -> P b -> R a b -> R' a b) ->
  List.Forall P l -> StronglySorted R l -> StronglySorted R' l.
Proof.
  intros HR HP Hs. induction Hs as [|x l Hl IH Hx]; [constructor|].
  apply List.Forall_cons_iff in HP as [Px Pl].
  constructor; [by apply IH|].
  rewrite List.Forall_forall in *. intros y Hy. apply HR; auto.
Qed.

Lemma key_le_ts_le (a b : event) :
  timestamp a <> None -> timestamp b <> None -> key_le a b -> ts_le a b.
Proof.
  unfold key_le, ts_le, sort_key.
  destruct (timestamp a), (timestamp b); simpl; congruence.
Qed.

(** C1: in every timeline of the view, each event has a timestamp and
    the session id the timeline is filed under, and the timestamps never
    decrease along the timeline. *)
Theorem timeline_invariants (t : tables) (sid : ident) (evs : list event) :
  build_unified_session_view t !! sid = Some evs ->
  List.Forall (fun e => timestamp e <> None /\ session_id e = Some sid) evs
  /\ StronglySorted ts_le evs.
Proof.
  intros Hb.
  assert (Hall : List.Forall
                   (fun e => timestamp e <> None /\ session_id e = Some sid) evs).
  { apply List.Forall_forall. intros e He.
    apply (build_In _ _ _ e Hb) in He. tauto. }
  split; [exact Hall|].
  apply build_lookup_Some in Hb as [Hevs _].
  apply (StronglySorted_weaken key_le ts_le _ evs
           (fun a b Ha Hb => key_le_ts_le a b (proj1 Ha) (proj1 Hb)) Hall).
  rewrite Hevs. apply StronglySorted_filter, sorted_sorted.
Qed.

Lemma timeline_invariants_witness :
  List.map (fun e => (type e, timestamp e))
    (default [] (build_unified_session_view Samples.interleaved !! Samples.S1))
  = [(llm_call_end, Some 10); (event_received_message, Some 20);
     (llm_call_start, Some 20); (function_call, Some 20); (agent_config, Some 30)]
  /\ List.Forall (fun e => timestamp e <> None /\ session_id e = Some Samples.S1)
       (default [] (build_unified_session_view Samples.interleaved !! Samples.S1))
  /\ StronglySorted ts_le
       (default [] (build_unified_session_view Samples.interleaved !! Samples.S1)).
Proof.
  split; [vm_compute; reflexivity|].
  apply (timeline_invariants Samples.interleaved Samples.S1).
  vm_compute. reflexivity.
Defined.

(** *** LLM call pairs *)

Lemma unified_events_In (t : tables) (e : event) :
  In e (unified_events t) <->
  (exists r, In r (agents t) /\ e = agent_event r)
  \/ (exists r, In r (events t) /\ e = state_event r)
  \/ (exists r, In r (frame_rows (chat_completions t))
                /\ (e = llm_start_event r \/ e = llm_end_event r))
  \/ (exists r, In r (function_calls t)
                /\ function_call_event (id_to_session t) r = Some e)
  \/ (exists r, In r (oai_clients t) /\ e = client_event r)
  \/ (exists r, In r (oai_wrappers t) /\ e = wrapper_event r).
Proof.
  unfold unified_events.
  rewrite !in_app_iff, !in_map_iff, in_flat_map, <- list_elem_of_In, list_elem_of_omap.
  setoid_rewrite list_elem_of_In. unfold llm_events. simpl.
  split.
  - intros [(r & <- & Hr)|[(r & <- & Hr)|[(r & Hr & [<-|[<-|[]]])|[(r & Hr & He)|
           [(r & <- & Hr)|(r & <- & Hr)]]]]]; eauto 10.
  - intros [(r & Hr & ->)|[(r & Hr & ->)|[(r & Hr & [-> | ->])|[(r & Hr & He)|
           [(r & Hr & ->)|(r & Hr & ->)]]]]]; eauto 10.
Qed.

(** Only the chat-completion table makes [llm_call_start] events. *)
Lemma llm_call_start_origin (t : tables) (e : event) :
  In e (unified_events t) -> type e = llm_call_start ->
  exists r, In r (frame_rows (chat_completions t)) /\ e = llm_start_event r.
Proof.
  rewrite unified_events_In.
  intros [(r & Hr & ->)|[(r & Hr & ->)|[(r & Hr & [-> | ->])|[(r & Hr & He)|
         [(r & Hr & ->)|(r & Hr & ->)]]]]]; try discriminate.
  - unfold type. simpl. destruct (is_received_message _); discriminate.
  - intros _. eauto.
  - unfold function_call_event in He.
    destruct (truthy _); [|discriminate]. injection He as <-. discriminate.
Qed.

Lemma llm_end_event_In (t : tables) (r : cc_row) :
  In r (frame_rows (chat_completions t)) -> In (llm_end_event r) (unified_events t).
Proof. intros Hr. apply unified_events_In. right; right; left. eauto. Qed.

Lemma llm_start_event_In (t : tables) (r : cc_row) :
  In r (frame_rows (chat_completions t)) -> In (llm_start_event r) (unified_events t).
Proof. intros Hr. apply unified_events_In. right; right; left. eauto. Qed.

(** C2, as the code has it: an [llm_call_start] event of a timeline comes
    from a chat-completion row; when that row has an end time, the
    [llm_call_end] event of the same row, with the same invocation id
    and session, is in the same timeline; and the end is not before the
    start exactly when the row's end time is not before its start
    time. *)
Theorem llm_start_has_end (t : tables) (sid : ident) (evs : list event) (e : event) :
  build_unified_session_view t !! sid = Some evs ->
  In e evs ->
  type e = llm_call_start ->
  exists r,
    In r (frame_rows (chat_completions t)) /\ e = llm_start_event r
    /\ (cc_end_time r <> None ->
        In (llm_end_event r) evs
        /\ type (llm_end_event r) = llm_call_end
        /\ invocation_id (llm_end_event r) = invocation_id e
        /\ session_id (llm_end_event r) = Some sid)
    /\ (forall s f, cc_start_time r = Some s -> cc_end_time r = Some f ->
        (ts_le e (llm_end_event r) <-> s <= f)).
Proof.
  intros Hb He Hty.
  apply (build_In _ _ _ e Hb) in He as (Hu & Hts & Hs).
  destruct (llm_call_start_origin t e Hu Hty) as (r & Hr & ->).
  exists r. split; [exact Hr|]. split; [reflexivity|]. split.
  - intros Hend. split; [|by repeat split].
    apply (build_In _ _ _ _ Hb). split; [by apply llm_end_event_In|]. by split.
  - intros s f Hs' Hf. unfold ts_le. simpl. by rewrite Hs', Hf.
Qed.

Lemma llm_start_has_end_witness :
  exists r, In r (frame_rows (chat_completions Samples.interleaved))
    /\ In (llm_start_event r)
         (default [] (build_unified_session_view Samples.interleaved !! Samples.S1))
    /\ In (llm_end_event r)
         (default [] (build_unified_session_view Samples.interleaved !! Samples.S1))
    /\ ~ ts_le (llm_start_event r) (llm_end_event r).
Proof.
  destruct (llm_start_has_end Samples.interleaved Samples.S1
              (default [] (build_unified_session_view Samples.interleaved !! Samples.S1))
              (llm_start_event
                 (Samples.completion (Some Samples.S1) (Some 20) (Some 10) []
                    Samples.two_cents)))
    as (r & Hr & Hstart & Hend & Hle).
  - vm_compute. reflexivity.
  - vm_compute. tauto.
  - reflexivity.
  - exists r. split; [exact Hr|].
    destruct Hr as [<-|[]].
    split; [vm_compute; tauto|].
    split; [apply Hend; discriminate|].
    rewrite (Hle 20 10 eq_refl eq_refl). lia.
Defined.

(** C2 fails as stated: in this snapshot the timeline of [S1] holds the
    start of a call whose row has no end time, and no [llm_call_end]
    event at all. *)
Lemma llm_start_without_end :
  ~ (forall sid evs e,
        build_unified_session_view Samples.orphan_start !! sid = Some evs ->
        In e evs ->
        type e = llm_call_start ->
        exists e', In e' evs /\ type e' = llm_call_end
                   /\ invocation_id e' = invocation_id e /\ ts_le e e').
Proof.
  intros H.
  destruct (H Samples.S1 [llm_start_event Samples.unanswered]
              (llm_start_event Samples.unanswered))
    as (e' & [<-|[]] & Hty & _).
  - vm_compute. reflexivity.
  - by left.
  - reflexivity.
  - discriminate Hty.
Qed.

(** *** Status, cost and tokens *)




Lemma sum_cost_session (sid : ident) (rows : list cc_enriched) :
  sum_cost (List.map (fun r => cc_cost (cc_base r)) (session_rows sid rows))
  = cost_of_session sid rows.
Proof.
  unfold sum_cost, cost_of_session, session_rows. generalize 0%float.
  induction rows as [|r rows IH]; intros acc; [reflexivity|]. simpl.
  destruct (bool_decide _); simpl; apply IH.
Qed.

Lemma sum_tokens_session (sid : ident) (rows : list cc_enriched) :
  sum_tokens (List.map cc_total_tokens (session_rows sid rows))
  = tokens_of_session sid rows.
Proof.
  unfold tokens_of_session, session_rows.
  induction rows as [|r rows IH]; [reflexivity|]. simpl.
  destruct (bool_decide _); simpl; [|exact IH].
  by rewrite sum_tokens_cons, IH.
Qed.

(** C5: the cost and token totals of a session's metrics are the sums
    of the cost and total_tokens columns over the chat-completion rows
    with that session id, whatever the timeline holds: two timelines on
    which metrics come out (neither is empty nor has a list or an
    object as the model of a call) give the same totals. *)
Theorem totals_from_chat_completions (sid : ident) (evs evs' : list event)
    (rows : list cc_enriched) :
  evs <> [] ->
  evs' <> [] ->
  forallb model_hashable evs = true ->
  forallb model_hashable evs' = true ->
  exists m m',
    calculate_session_metrics sid evs (Enriched rows) = Ok (Some m)
    /\ calculate_session_metrics sid evs' (Enriched rows) = Ok (Some m')
    /\ m_total_cost m = cost_of_session sid rows
    /\ m_total_tokens m = tokens_of_session sid rows
    /\ m_total_cost m' = m_total_cost m
    /\ m_total_tokens m' = m_total_tokens m.
Proof.
  intros Hne Hne' Hh Hh'.
  destruct (calculate_returns sid evs rows Hne Hh) as (m & Hm & _ & Hc & Ht).
  destruct (calculate_returns sid evs' rows Hne' Hh') as (m' & Hm' & _ & Hc' & Ht').
  exists m, m'. rewrite <- sum_cost_session, <- sum_tokens_session.
  repeat split; try assumption; congruence.
Qed.

Lemma totals_from_chat_completions_witness :
  exists m m',
    calculate_session_metrics Samples.S1 [Samples.greeting] (Enriched Samples.ledger)
    = Ok (Some m)
    /\ calculate_session_metrics Samples.S1 [Samples.crashed; Samples.greeting]
         (Enriched Samples.ledger) = Ok (Some m')
    /\ m_total_tokens m = 150 /\ m_total_tokens m' = 150
    /\ m_total_cost m = 0x1.47ae147ae147bp-5%float
    /\ m_total_cost m' = 0x1.47ae147ae147bp-5%float.
Proof.
  destruct (totals_from_chat_completions Samples.S1 [Samples.greeting]
              [Samples.crashed; Samples.greeting] Samples.ledger)
    as (m & m' & Hm & Hm' & Hc & Ht & Hc' & Ht');
    [discriminate | discriminate | reflexivity | reflexivity |].
  exists m, m'. rewrite Ht', Hc', Ht, Hc.
  repeat split; try assumption; vm_compute; reflexivity.
Defined.

(** *** Enrichment of the chat completions *)

Lemma enrich_row_derived (r : cc_row) (d : cc_enriched) :
  enrich_row r = Ok d -> derived_for r d.
Proof.
  unfold enrich_row.
  destruct (extract_tokens (cc_response_dict r)) as [[[total prompt] completion]|e] eqn:Hx;
    [|discriminate].
  cbn. intros [= <-]. unfold derived_for. cbn.
  split; [reflexivity|]. split; [exact Hx|].
  unfold cost_per_token, completion_ratio, np_where. split.
  - intros ->. by split.
  - intros Hpos. apply Z.ltb_lt in Hpos. rewrite Hpos. by split.
Qed.

(** C6: the three usage counts are read from the response's usage dict
    and coerced by [int], a missing one counting as 0; and when a usage
    value that is there cannot be coerced, the enrichment raises and
    [load_database] fails instead of taking the count as 0. *)
Theorem usage_not_coercible_fails (s : snapshot) (r : cc_row) (u : dict)
    (k : string) (v : json) (e : exn) :
  In r (s_chat_completions s) ->
  dict_get "usage" (cc_response_dict r) (JObj []) = JObj u ->
  In k usage_keys ->
  dict_lookup k u = Some v ->
  py_int v = Raise e ->
  (exists e', extract_tokens (cc_response_dict r) = Raise e')
  /\ (exists e', enrich_chat_completions (s_chat_completions s) = Raise e')
  /\ load_database s = None
  /\ (forall (d u' : dict) total prompt completion,
        dict_get "usage" d (JObj []) = JObj u' ->
        extract_tokens d = Ok (total, prompt, completion) <->
        py_int (dict_get "total_tokens" u' (JInt 0)) = Ok total
        /\ py_int (dict_get "prompt_tokens" u' (JInt 0)) = Ok prompt
        /\ py_int (dict_get "completion_tokens" u' (JInt 0)) = Ok completion)
  /\ (forall (u' : dict) k',
        dict_lookup k' u' = None -> py_int (dict_get k' u' (JInt 0)) = Ok 0)
  /\ (forall d, dict_lookup "usage" d = None -> extract_tokens d = Ok (0, 0, 0)).
Proof.
  intros Hr Hu Hk Hv He.
  destruct (extract_tokens_raise _ _ _ _ _ Hu Hk Hv He) as [e1 He1].
  assert (Hen : exists e', enrich_chat_completions (s_chat_completions s) = Raise e').
  { unfold enrich_chat_completions.
    destruct (s_chat_completions s) as [|r0 rows] eqn:Hrows; [destruct Hr|].
    destruct (mapM_raise enrich_row (r0 :: rows) r e1 Hr (enrich_row_raise _ _ He1))
      as [e' ->]. by exists e'. }
  split; [by exists e1|]. split; [exact Hen|]. split.
  - destruct Hen as [e' He']. by apply (load_database_raise s e').
  - split; [intros d u' total prompt completion; apply extract_tokens_ok_iff|].
    split.
    + intros u' k' Hnone. by rewrite (dict_get_absent _ _ _ Hnone).
    + intros d Hnone. unfold extract_tokens. by rewrite (dict_get_absent _ _ _ Hnone).
Qed.

Lemma usage_not_coercible_fails_witness :
  extract_tokens (Samples.usage (JStr "abc") (JInt 4) (JInt 6)) = Raise ValueError
  /\ load_database Samples.garbled = None.
Proof.
  split; [reflexivity|].
  apply (usage_not_coercible_fails Samples.garbled
           (Samples.completion (Some Samples.S1) (Some 3) (Some 4)
              (Samples.usage (JStr "abc") (JInt 4) (JInt 6)) Samples.two_cents)
           [("total_tokens", JStr "abc"); ("prompt_tokens", JInt 4);
            ("completion_tokens", JInt 6)]
           "total_tokens" (JStr "abc") ValueError).
  - right; left; reflexivity.
  - reflexivity.
  - left; reflexivity.
  - reflexivity.
  - reflexivity.
Defined.

(** C9: enrichment of a table that is not empty succeeds whenever the
    usage counts of every row can be read, and an exception it raises
    is one raised by [extract_tokens]; a row whose total is 0 gets a
    cost per token and a completion ratio of exactly 0, and a row whose
    total is positive gets cost / total and completion / total. *)
Theorem ratios_guarded (rows : list cc_row) :
  rows <> [] ->
  (forall r, In r rows -> exists c, extract_tokens (cc_response_dict r) = Ok c) ->
  (exists out, enrich_chat_completions rows = Ok (Enriched out)
               /\ Forall2 derived_for rows out)
  /\ (forall e, enrich_chat_completions rows = Raise e ->
        exists r, In r rows /\ extract_tokens (cc_response_dict r) = Raise e).
Proof.
  intros Hne Hok.
  assert (Hrow : forall r, In r rows -> exists d, enrich_row r = Ok d).
  { intros r Hr. destruct (Hok r Hr) as [[[total prompt] completion] Hc].
    rewrite (enrich_row_ok _ _ _ _ Hc). by eexists. }
  destruct (mapM_ok enrich_row rows Hrow) as (out & Hout & Hall).
  unfold enrich_chat_completions.
  destruct rows as [|r0 rows]; [congruence|].
  rewrite Hout. cbn. split.
  - exists out. split; [reflexivity|].
    eapply Forall2_impl; [exact Hall|]. intros r d. apply enrich_row_derived.
  - discriminate.
Qed.

Lemma ratios_guarded_witness :
  exists out, enrich_chat_completions Samples.billed = Ok (Enriched out)
    /\ List.map (fun d => (cc_total_tokens d, cc_cost_per_token d, cc_completion_ratio d))
         out
       = [(0, 0%float, 0%float); (0, 0%float, 0%float);
          (100, 0x1.a36e2eb1c432dp-13%float, 0.25%float)].
Proof.
  destruct (ratios_guarded Samples.billed) as [(out & Hout & _) _].
  - discriminate.
  - intros r [<-|[<-|[<-|[]]]]; eexists; vm_compute; reflexivity.
  - exists out. split; [exact Hout|].
    vm_compute in Hout. injection Hout as <-. vm_compute. reflexivity.
Defined.

(** *** Function calls *)

Lemma resolve_session_unmapped (m : gmap ident ident) (source : option ident) :
  source = None \/ (exists x, source = Some x /\ m !! x = None) ->
  resolve_session m source = None.
Proof.
  unfold resolve_session. intros [->|(x & -> & Hx)]; [reflexivity|].
  destruct (truthy _); [exact Hx | reflexivity].
Qed.

Lemma function_call_event_unmapped (m : gmap ident ident) (r : function_call_row) :
  fc_source_id r = None \/ (exists x, fc_source_id r = Some x /\ m !! x = None) ->
  function_call_event m r = None.
Proof.
  intros H. unfold function_call_event.
  by rewrite (resolve_session_unmapped _ _ H).
Qed.

Lemma function_call_event_session (m : gmap ident ident) (r : function_call_row) e :
  function_call_event m r = Some e ->
  exists x, fc_source_id r = Some x /\ session_id e = m !! x.
Proof.
  unfold function_call_event, resolve_session.
  destruct (fc_source_id r) as [x|]; [|discriminate].
  destruct (truthy (Some x)); [|discriminate]. simpl.
  destruct (truthy (m !! x)); [|discriminate].
  intros [= <-]. by exists x.
Qed.

(** C7: the session of a function call is what the identity map holds
    for the row's source id, whatever session cell the row carries; and
    a row whose source id is null or not in the map yields no event:
    the view and every session's metrics are the same as without the
    row. *)
Theorem function_call_resolved_by_source (t : tables)
    (pre post : list function_call_row) (r : function_call_row) :
  function_calls t = pre ++ r :: post ->
  fc_source_id r = None
  \/ (exists x, fc_source_id r = Some x /\ id_to_session t !! x = None) ->
  function_call_event (id_to_session t) r = None
  /\ build_unified_session_view t
     = build_unified_session_view (with_function_calls t (pre ++ post))
  /\ (forall sid,
        session_metrics t sid = session_metrics (with_function_calls t (pre ++ post)) sid)
  /\ (forall r' s,
        function_call_event (id_to_session t) (with_fc_session_id r' s)
        = function_call_event (id_to_session t) r')
  /\ (forall r' e,
        function_call_event (id_to_session t) r' = Some e ->
        exists x, fc_source_id r' = Some x /\ session_id e = id_to_session t !! x).
Proof.
  intros Hrows Hun.
  pose proof (function_call_event_unmapped _ _ Hun) as Hnone.
  assert (Hview : build_unified_session_view t
                  = build_unified_session_view (with_function_calls t (pre ++ post))).
  { unfold build_unified_session_view, unified_events.
    change (id_to_session (with_function_calls t (pre ++ post))) with (id_to_session t).
    cbn [agents events chat_completions function_calls oai_clients oai_wrappers
         with_function_calls].
    rewrite Hrows, !omap_app. cbn [omap list_omap]. by rewrite Hnone. }
  split; [exact Hnone|]. split; [exact Hview|]. split.
  - intros sid. unfold session_metrics. by rewrite <- Hview.
  - split; [reflexivity|]. intros r' e. apply function_call_event_session.
Qed.

Lemma function_call_resolved_by_source_witness :
  List.map type (default [] (build_unified_session_view Samples.with_stray !! Samples.S1))
  = [agent_config; llm_call_start; function_call; llm_call_end]
  /\ build_unified_session_view Samples.with_stray
     = build_unified_session_view
         (with_function_calls Samples.with_stray
            [Samples.call (Some Samples.X) (Some 20)]).
Proof.
  split; [vm_compute; reflexivity|].
  apply (function_call_resolved_by_source Samples.with_stray
           [Samples.call (Some Samples.X) (Some 20)] [] Samples.stray_call).
  - reflexivity.
  - right. exists (IdStr "W9"). split; [reflexivity | vm_compute; reflexivity].
Defined.

(** *** Records with missing fields *)

(** C8, as the code has it: a timeline holds exactly the events that
    have a timestamp and the timeline's session id.  So a row of the
    agents, events, clients or wrappers table without timestamp or
    session id leaves no event; a function call leaves none when its
    source id does not resolve or its timestamp is null; and of a
    chat-completion row without session id neither event is kept, while
    without start time only the start event is dropped and without end
    time only the end event. *)
Theorem missing_fields_drop_events (t : tables) (sid : ident) (evs : list event) :
  build_unified_session_view t !! sid = Some evs ->
  (forall e, In e evs <->
             In e (unified_events t) /\ timestamp e <> None /\ session_id e = Some sid)
  /\ (forall r, ag_timestamp r = None \/ ag_session_id r = None ->
                ~ In (agent_event r) evs)
  /\ (forall r, ev_timestamp r = None \/ ev_session_id r = None ->
                ~ In (state_event r) evs)
  /\ (forall r, cl_timestamp r = None \/ cl_session_id r = None ->
                ~ In (client_event r) evs)
  /\ (forall r, wr_timestamp r = None \/ wr_session_id r = None ->
                ~ In (wrapper_event r) evs)
  /\ (forall r,
        (fc_source_id r = None
         \/ (exists x, fc_source_id r = Some x /\ id_to_session t !! x = None) ->
         function_call_event (id_to_session t) r = None)
        /\ (forall e, function_call_event (id_to_session t) r = Some e ->
                      fc_timestamp r = None -> ~ In e evs))
  /\ (forall r,
        (cc_session_id r = None ->
         ~ In (llm_start_event r) evs /\ ~ In (llm_end_event r) evs)
        /\ (cc_start_time r = None -> ~ In (llm_start_event r) evs)
        /\ (cc_end_time r = None -> ~ In (llm_end_event r) evs)
        /\ (In r (frame_rows (chat_completions t)) ->
            cc_session_id r = Some sid -> cc_end_time r <> None ->
            In (llm_end_event r) evs)
        /\ (In r (frame_rows (chat_completions t)) ->
            cc_session_id r = Some sid -> cc_start_time r <> None ->
            In (llm_start_event r) evs)).
Proof.
  intros Hb.
  assert (Hin : forall e, In e evs <->
            In e (unified_events t) /\ timestamp e <> None /\ session_id e = Some sid)
    by (intros e; apply (build_In _ _ _ e Hb)).
  assert (Hdrop : forall e, timestamp e = None \/ session_id e = None -> ~ In e evs).
  { intros e [H|H] He; apply Hin in He as (_ & Hts & Hs); congruence. }
  split; [exact Hin|].
  split; [intros r H; apply Hdrop; exact H|].
  split; [intros r H; apply Hdrop; exact H|].
  split; [intros r H; apply Hdrop; exact H|].
  split; [intros r H; apply Hdrop; exact H|].
  split.
  - intros r. split; [apply function_call_event_unmapped|].
    intros e He Hts. apply Hdrop. left.
    unfold function_call_event in He.
    destruct (truthy _); [|discriminate]. by injection He as <-.
  - intros r. split; [intros H; split; apply Hdrop; by right|].
    split; [intros H; apply Hdrop; by left|].
    split; [intros H; apply Hdrop; by left|].
    split; intros Hr Hs Hts; apply Hin.
    + split; [by apply llm_end_event_In | by split].
    + split; [by apply llm_start_event_In | by split].
Qed.

Lemma missing_fields_drop_events_witness :
  build_unified_session_view Samples.orphan_end !! Samples.S1
  = Some [llm_end_event Samples.unstarted]
  /\ ~ In (llm_start_event Samples.unstarted) [llm_end_event Samples.unstarted].
Proof.
  split; [vm_compute; reflexivity|].
  apply (missing_fields_drop_events Samples.orphan_end Samples.S1
           [llm_end_event Samples.unstarted]); [vm_compute; reflexivity|].
  reflexivity.
Defined.

(** C8 fails as stated: this chat-completion row lacks its start time,
    and still leaves an event, its [llm_call_end], in the timeline of
    its session. *)
Lemma row_without_start_time_leaves_event :
  ~ (forall r,
        In r (frame_rows (chat_completions Samples.orphan_end)) ->
        cc_start_time r = None \/ cc_end_time r = None \/ cc_session_id r = None ->
        forall sid evs e,
          build_unified_session_view Samples.orphan_end !! sid = Some evs ->
          In e evs -> ~ In e (llm_events r)).
Proof.
  intros H.
  apply (H Samples.unstarted (or_introl eq_refl) (or_introl eq_refl) Samples.S1
           [llm_end_event Samples.unstarted] (llm_end_event Samples.unstarted)).
  - vm_compute. reflexivity.
  - by left.
  - right. by left.
Qed.

(** *** Calls that are counted and not shown *)

Lemma session_rows_app (sid : ident) (l1 l2 : list cc_enriched) :
  session_rows sid (l1 ++ l2) = session_rows sid l1 ++ session_rows sid l2.
Proof. apply List.filter_app. Qed.

(** C10: for a session of the view whose timeline has no list or object
    as the model of a call, the metrics come out and their cost and
    token totals are taken over every chat-completion row with that
    session id; such a row is counted with its own tokens whether or
    not its events are in the timeline, and without start (end) time
    its start (end) event is not there. *)
Theorem totals_count_rows_out_of_timeline (t : tables) (rows : list cc_enriched)
    (sid : ident) (evs : list event) (r : cc_enriched) :
  chat_completions t = Enriched rows ->
  build_unified_session_view t !! sid = Some evs ->
  forallb model_hashable evs = true ->
  In r rows ->
  cc_session_id (cc_base r) = Some sid ->
  exists m,
    calculate_session_metrics sid evs (chat_completions t) = Ok (Some m)
    /\ m_total_cost m = cost_of_session sid rows
    /\ m_total_tokens m = tokens_of_session sid rows
    /\ In r (session_rows sid rows)
    /\ (exists pre post,
          rows = pre ++ r :: post
          /\ m_total_tokens m
             = tokens_of_session sid pre + cc_total_tokens r + tokens_of_session sid post)
    /\ (cc_start_time (cc_base r) = None -> ~ In (llm_start_event (cc_base r)) evs)
    /\ (cc_end_time (cc_base r) = None -> ~ In (llm_end_event (cc_base r)) evs).
Proof.
  intros Hdf Hb Hh Hr Hs.
  pose proof (build_lookup_Some _ _ _ Hb) as [_ Hne].
  destruct (calculate_returns sid evs rows Hne Hh) as (m & Hm & _ & Hc & Ht).
  rewrite sum_cost_session in Hc.
  exists m. rewrite Hdf. split; [exact Hm|]. split; [exact Hc|].
  split; [by rewrite Ht, sum_tokens_session|].
  split; [|split; [|split]].
  - unfold session_rows. apply List.filter_In. split; [exact Hr|].
    by apply bool_decide_eq_true.
  - destruct (List.in_split _ _ Hr) as (pre & post & ->).
    exists pre, post. split; [reflexivity|].
    rewrite Ht, session_rows_app. unfold session_rows at 2. cbn [List.filter].
    rewrite (bool_decide_eq_true_2 _ Hs).
    rewrite List.map_app, sum_tokens_app. cbn [List.map].
    rewrite sum_tokens_cons. fold (session_rows sid post).
    rewrite !sum_tokens_session. lia.
  - intros Hn He. apply (build_In _ _ _ _ Hb) in He as (_ & Hts & _). by apply Hts.
  - intros Hn He. apply (build_In _ _ _ _ Hb) in He as (_ & Hts & _). by apply Hts.
Qed.

Lemma totals_count_rows_out_of_timeline_witness :
  List.map type (default [] (build_unified_session_view Samples.unseen_call !! Samples.S1))
  = [agent_config]
  /\ exists m,
       session_metrics Samples.unseen_call Samples.S1 = Some (Ok (Some m))
       /\ m_num_llm_calls m = 0%nat
       /\ m_total_tokens m = 50
       /\ m_total_cost m = Samples.two_cents.
Proof.
  split; [vm_compute; reflexivity|].
  destruct (totals_count_rows_out_of_timeline Samples.unseen_call [Samples.untimed]
              Samples.S1
              (default [] (build_unified_session_view Samples.unseen_call !! Samples.S1))
              Samples.untimed)
    as (m & Hm & Hc & Ht & _).
  - reflexivity.
  - vm_compute. reflexivity.
  - reflexivity.
  - by left.
  - reflexivity.
  - exists m. split; [|split; [|split]].
    + unfold session_metrics.
      replace (build_unified_session_view Samples.unseen_call !! Samples.S1)
        with (Some (default [] (build_unified_session_view Samples.unseen_call
                                  !! Samples.S1)))
        by (vm_compute; reflexivity).
      cbn [fmap option_fmap option_map]. by rewrite Hm.
    + vm_compute in Hm. by injection Hm as <-.
    + rewrite Ht. vm_compute. reflexivity.
    + rewrite Hc. vm_compute. reflexivity.
Defined.

(** ** Further properties of the session view *)

Lemma sorted_same_key (l : list event) (k : Z) :
  List.Forall (fun e => sort_key e = k) l -> sorted l = l.
Proof.
  induction 1 as [|e l He Hl IH]; simpl; [reflexivity|].
  rewrite IH. apply insert_by_key_head.
  eapply Forall_impl; [exact Hl|]. unfold key_le. intros x Hx. simpl in *. lia.
Qed.

Lemma filter_key_sorted (l : list event) (k : Z) :
  List.filter (fun e => sort_key e =? k) (sorted l)
  = List.filter (fun e => sort_key e =? k) l.
Proof.
  rewrite sorted_filter. apply (sorted_same_key _ k).
  apply List.Forall_forall. intros e He.
  apply List.filter_In in He as [_ He]. by apply Z.eqb_eq.
Qed.

Lemma filter_comm {A} (f g : A -> bool) (l : list A) :
  List.filter f (List.filter g l) = List.filter g (List.filter f l).
Proof.
  induction l as [|x l IH]; simpl; [reflexivity|].
  destruct (f x) eqn:Hf, (g x) eqn:Hg; simpl; rewrite ?Hf, ?Hg, IH; reflexivity.
Qed.

(** X1: a session id is a key of the view exactly when some unified
    event has both a timestamp and that session id, and no timeline of
    the view is empty. *)
Theorem view_sessions (t : tables) (sid : ident) :
  (is_Some (build_unified_session_view t !! sid) <->
   exists e, In e (unified_events t) /\ timestamp e <> None /\ session_id e = Some sid)
  /\ (forall evs, build_unified_session_view t !! sid = Some evs -> evs <> []).
Proof.
  split.
  - split.
    + intros [evs Hb]. pose proof (build_lookup_Some _ _ _ Hb) as [_ Hne].
      destruct evs as [|e evs]; [congruence|].
      exists e. apply (build_In _ _ _ e Hb). by left.
    + intros (e & Hin & Hts & Hs).
      destruct (build_has_event t sid e Hin Hts Hs) as (evs & Hb & _).
      by exists evs.
  - intros evs Hb. apply (build_lookup_Some _ _ _ Hb).
Qed.

(** X2: sorting all events and then filing them by session gives, for
    each session, the stable sort of that session's own events: events
    of a timeline that share a timestamp are in the order in which the
    six loops produced them. *)
Theorem timeline_ties_in_production_order (t : tables) (sid : ident)
    (evs : list event) (k : Z) :
  build_unified_session_view t !! sid = Some evs ->
  evs = sorted (timeline_of sid (valid_events (unified_events t)))
  /\ List.filter (fun e => sort_key e =? k) evs
     = List.filter (fun e => sort_key e =? k)
         (timeline_of sid (valid_events (unified_events t))).
Proof.
  intros Hb. pose proof (build_lookup_sorted _ _ _ Hb) as ->.
  split; [reflexivity | apply filter_key_sorted].
Qed.

Lemma timeline_ties_in_production_order_witness :
  List.map type
    (List.filter (fun e => sort_key e =? 20)
       (default [] (build_unified_session_view Samples.interleaved !! Samples.S1)))
  = [event_received_message; llm_call_start; function_call].
Proof.
  destruct (timeline_ties_in_production_order Samples.interleaved Samples.S1
              (default [] (build_unified_session_view Samples.interleaved !! Samples.S1))
              20) as [_ ->]; vm_compute; reflexivity.
Defined.

(** X3: a timeline is a rearrangement of the unified events that have
    a timestamp and its session id: none is lost, none is added, none
    is repeated. *)
Theorem timeline_keeps_every_event (t : tables) (sid : ident) (evs : list event) :
  build_unified_session_view t !! sid = Some evs ->
  Permutation evs (timeline_of sid (valid_events (unified_events t)))
  /\ length evs = length (timeline_of sid (valid_events (unified_events t))).
Proof.
  intros Hb. pose proof (build_lookup_sorted _ _ _ Hb) as ->.
  split; [apply sorted_perm|]. apply Permutation_length, sorted_perm.
Qed.

Lemma timeline_keeps_every_event_witness :
  length (default [] (build_unified_session_view Samples.interleaved !! Samples.S1)) = 5%nat
  /\ length (valid_events (unified_events Samples.interleaved)) = 7%nat.
Proof.
  split; [|vm_compute; reflexivity].
  destruct (timeline_keeps_every_event Samples.interleaved Samples.S1
              (default [] (build_unified_session_view Samples.interleaved !! Samples.S1)))
    as [_ ->]; vm_compute; reflexivity.
Defined.

(** ** Further properties of the identifier resolver *)

Section AssignmentLog.

Implicit Types (m : gmap ident ident) (log : list (ident * ident)).

Lemma replay_app log1 log2 m : replay (log1 ++ log2) m = replay log2 (replay log1 m).
Proof. apply fold_left_app. Qed.

Lemma register_replay k s m : register k s m = replay (assignment k s) m.
Proof. by destruct k. Qed.

Lemma register_agent_replay m r : register_agent m r = replay (agent_assignments r) m.
Proof.
  unfold register_agent, agent_assignments.
  destruct (ag_session_id r); [|reflexivity].
  by rewrite replay_app, !register_replay.
Qed.

Lemma register_client_replay m r : register_client m r = replay (client_assignments r) m.
Proof.
  unfold register_client, client_assignments.
  destruct (cl_session_id r); [|reflexivity].
  by rewrite replay_app, !register_replay.
Qed.

Lemma register_wrapper_replay m r :
  register_wrapper m r = replay (wrapper_assignments r) m.
Proof.
  unfold register_wrapper, wrapper_assignments.
  destruct (wr_session_id r); [|reflexivity].
  by rewrite register_replay.
Qed.

Lemma fold_left_replay {R} (step : gmap ident ident -> R -> gmap ident ident)
    (log_of : R -> list (ident * ident))
    (Hstep : forall m r, step m r = replay (log_of r) m) (rows : list R) m :
  fold_left step rows m = replay (List.flat_map log_of rows) m.
Proof.
  revert m. induction rows as [|r rows IH]; intros m; simpl; [reflexivity|].
  by rewrite replay_app, IH, Hstep.
Qed.

Lemma id_to_session_replay t : id_to_session t = replay (assignments t) ∅.
Proof.
  unfold id_to_session, assignments, register_wrappers, register_clients,
    register_agents.
  rewrite !replay_app.
  rewrite (fold_left_replay _ _ register_agent_replay).
  rewrite (fold_left_replay _ _ register_client_replay).
  by rewrite (fold_left_replay _ _ register_wrapper_replay).
Qed.

Lemma last_assigned_snoc x log p :
  last_assigned x (log ++ [p])
  = if bool_decide (fst p = x) then Some (snd p) else last_assigned x log.
Proof.
  unfold last_assigned. rewrite List.filter_app. simpl.
  destruct (bool_decide (fst p = x)); [by rewrite last_snoc | by rewrite app_nil_r].
Qed.

Lemma replay_lookup log m x :
  replay log m !! x = match last_assigned x log with
                      | Some s => Some s
                      | None => m !! x
                      end.
Proof.
  induction log as [|p log IH] using rev_ind; [reflexivity|].
  rewrite replay_app, last_assigned_snoc. simpl.
  case_bool_decide as Hp.
  - rewrite <- Hp. apply lookup_insert_eq.
  - rewrite lookup_insert_ne by exact Hp. exact IH.
Qed.

Lemma last_assigned_Some x s log :
  last_assigned x log = Some s -> In (x, s) log.
Proof.
  unfold last_assigned. intros H.
  destruct (last _) as [[k v]|] eqn:Hl; [|discriminate]. injection H as <-.
  apply last_Some in Hl as [l' Hl].
  assert (Hin : In (k, v) (List.filter (fun p => bool_decide (fst p = x)) log))
    by (rewrite Hl; apply in_or_app; right; by left).
  apply List.filter_In in Hin as [Hin Hk].
  apply bool_decide_eq_true in Hk. simpl in Hk. by subst k.
Qed.

Lemma last_assigned_is_Some x log :
  is_Some (last_assigned x log) <-> exists s, In (x, s) log.
Proof.
  split.
  - intros [s Hs]. exists s. by apply last_assigned_Some.
  - intros [s Hs]. unfold last_assigned.
    assert (Hin : In (x, s) (List.filter (fun p => bool_decide (fst p = x)) log)).
    { apply List.filter_In. split; [exact Hs|]. by apply bool_decide_eq_true. }
    destruct (List.filter _ log) as [|p l] using rev_ind; [destruct Hin|].
    rewrite last_snoc. by eexists.
Qed.

Lemma assignment_In k s x s' : In (x, s') (assignment k s) <-> k = Some x /\ s' = s.
Proof.
  destruct k as [k|]; simpl; [|split; [tauto | intros [? _]; discriminate]].
  split; [intros [[= -> ->]|[]]; auto | intros [[= ->] ->]; by left].
Qed.

Lemma agent_assignments_In r x s :
  In (x, s) (agent_assignments r) <->
  ag_session_id r = Some s /\ (ag_wrapper_id r = Some x \/ ag_agent_id r = Some x).
Proof.
  unfold agent_assignments. destruct (ag_session_id r) as [s0|]; simpl.
  - rewrite in_app_iff, !assignment_In. split.
    + intros [[? ->]|[? ->]]; auto.
    + intros [[= ->] [?|?]]; auto.
  - split; [tauto | intros [? _]; discriminate].
Qed.

Lemma client_assignments_In r x s :
  In (x, s) (client_assignments r) <->
  cl_session_id r = Some s /\ (cl_client_id r = Some x \/ cl_wrapper_id r = Some x).
Proof.
  unfold client_assignments. destruct (cl_session_id r) as [s0|]; simpl.
  - rewrite in_app_iff, !assignment_In. split.
    + intros [[? ->]|[? ->]]; auto.
    + intros [[= ->] [?|?]]; auto.
  - split; [tauto | intros [? _]; discriminate].
Qed.

Lemma wrapper_assignments_In r x s :
  In (x, s) (wrapper_assignments r) <->
  wr_session_id r = Some s /\ wr_wrapper_id r = Some x.
Proof.
  unfold wrapper_assignments. destruct (wr_session_id r) as [s0|]; simpl.
  - rewrite assignment_In. split; [intros [? ->]; auto | intros [[= ->] ?]; auto].
  - split; [tauto | intros [? _]; discriminate].
Qed.

(** Which rows stand behind an assignment of the log. *)
Lemma assignments_In t x s :
  In (x, s) (assignments t) <->
  (exists r, In r (agents t) /\ ag_session_id r = Some s
             /\ (ag_wrapper_id r = Some x \/ ag_agent_id r = Some x))
  \/ (exists r, In r (oai_clients t) /\ cl_session_id r = Some s
                /\ (cl_client_id r = Some x \/ cl_wrapper_id r = Some x))
  \/ (exists r, In r (oai_wrappers t) /\ wr_session_id r = Some s
                /\ wr_wrapper_id r = Some x).
Proof.
  unfold assignments. rewrite !in_app_iff, !in_flat_map.
  setoid_rewrite agent_assignments_In.
  setoid_rewrite client_assignments_In.
  setoid_rewrite wrapper_assignments_In.
  reflexivity.
Qed.

Lemma replay_empty_lookup log x : replay log ∅ !! x = last_assigned x log.
Proof. rewrite replay_lookup, lookup_empty. by destruct (last_assigned x log). Qed.

End AssignmentLog.

Lemma last_assigned_app (x : ident) (l1 l2 : list (ident * ident)) :
  last_assigned x (l1 ++ l2)
  = match last_assigned x l2 with
    | Some s => Some s
    | None => last_assigned x l1
    end.
Proof.
  unfold last_assigned. rewrite List.filter_app, last_app.
  by destruct (last (List.filter _ l2)).
Qed.

Lemma last_assigned_all (x b : ident) (l : list (ident * ident)) :
  (forall s, In (x, s) l -> s = b) ->
  last_assigned x l = Some b \/ last_assigned x l = None.
Proof.
  intros H. destruct (last_assigned x l) as [s|] eqn:Hs; [left | by right].
  f_equal. apply H. by apply last_assigned_Some.
Qed.

(** C3, as the code has it: the identity map holds, for every
    identifier, the session of the last assignment made to it, the
    assignments being made table by table (agents, then clients, then
    wrappers), row by row, for each non-null identifier of each row
    with a non-null session id.  So an identifier that an agents row
    registers with session [a] and a wrappers row with session [b]
    resolves to [b] when no later wrappers row registers it with
    another session. *)
Theorem resolver_final_writer_wins (t : tables) (x a b : ident) (ra : agent_row)
    (pre post : list wrapper_row) (rw : wrapper_row) :
  In ra (agents t) ->
  ag_session_id ra = Some a ->
  ag_wrapper_id ra = Some x \/ ag_agent_id ra = Some x ->
  oai_wrappers t = pre ++ rw :: post ->
  wr_wrapper_id rw = Some x ->
  wr_session_id rw = Some b ->
  List.Forall (fun r => wr_wrapper_id r = Some x ->
                        wr_session_id r = None \/ wr_session_id r = Some b) post ->
  (forall y, id_to_session t !! y = last_assigned y (assignments t))
  /\ id_to_session t !! x = Some b.
Proof.
  intros _ _ _ Hw Hx Hb Hpost.
  assert (Hlog : forall y, id_to_session t !! y = last_assigned y (assignments t))
    by (intros y; rewrite id_to_session_replay; apply replay_empty_lookup).
  split; [exact Hlog|]. rewrite Hlog. unfold assignments. rewrite Hw.
  rewrite !last_assigned_app, flat_map_app. cbn [List.flat_map].
  rewrite !last_assigned_app.
  assert (Hrw : last_assigned x (wrapper_assignments rw) = Some b).
  { unfold wrapper_assignments. rewrite Hb, Hx. unfold last_assigned. simpl.
    by rewrite bool_decide_eq_true_2. }
  destruct (last_assigned_all x b (List.flat_map wrapper_assignments post)) as [->| ->].
  - intros s (r & Hr & Hs)%in_flat_map.
    apply wrapper_assignments_In in Hs as [Hs Hk].
    rewrite List.Forall_forall in Hpost.
    destruct (Hpost r Hr Hk) as [Hn|Hn]; congruence.
  - reflexivity.
  - by rewrite Hrw.
Qed.

Lemma resolver_final_writer_wins_witness :
  id_to_session Samples.overwrite !! Samples.X = Some Samples.SB.
Proof.
  apply (resolver_final_writer_wins Samples.overwrite Samples.X Samples.SA Samples.SB
           (Samples.agent (Some Samples.SA) (Some Samples.X) (Some 1)) [] []
           (Samples.wrapper (Some Samples.SB) (Some Samples.X) (Some 2)));
    try reflexivity; [by left | by left | constructor].
Defined.

(** C3 fails as stated: here the agents table registers [X] with [SA]
    and the wrappers table registers it with [SB], and the map does not
    yield [SB], because a later wrappers row registers [X] with [S1]. *)
Lemma resolver_later_wrapper_row_wins :
  ~ (forall x a b,
        (exists r, In r (agents MoreSamples.rebound) /\ ag_session_id r = Some a
                   /\ (ag_wrapper_id r = Some x \/ ag_agent_id r = Some x)) ->
        (exists r, In r (oai_wrappers MoreSamples.rebound) /\ wr_session_id r = Some b
                   /\ wr_wrapper_id r = Some x) ->
        id_to_session MoreSamples.rebound !! x = Some b).
Proof.
  intros H.
  assert (Hb : id_to_session MoreSamples.rebound !! Samples.X = Some Samples.SB).
  { apply (H Samples.X Samples.SA Samples.SB).
    - eexists. split; [by left|]. split; [reflexivity | by left].
    - eexists. split; [by left|]. by split. }
  vm_compute in Hb. discriminate Hb.
Qed.

(** X4: the session an identifier resolves to is the one of the last
    assignment made to it, the assignments being taken table by table
    (agents, clients, wrappers), row by row, and within a row in the
    order of the source. *)
Theorem id_to_session_last_assignment (t : tables) (x : ident) :
  id_to_session t !! x = last_assigned x (assignments t).
Proof.
  rewrite id_to_session_replay. apply replay_empty_lookup.
Qed.

(** X5: an identifier is in the map exactly when it is the wrapper or
    agent id of an agents row, the client or wrapper id of a clients
    row, or the wrapper id of a wrappers row, the row having a session
    id; and the session it resolves to is the session of such a row.
    Timestamps play no part. *)
Theorem id_to_session_domain (t : tables) (x : ident) :
  (is_Some (id_to_session t !! x) <-> exists s, registers t x s)
  /\ (forall s, id_to_session t !! x = Some s -> registers t x s).
Proof.
  rewrite id_to_session_replay, replay_empty_lookup. split.
  - rewrite last_assigned_is_Some. unfold registers. by setoid_rewrite assignments_In.
  - intros s Hs. apply assignments_In. by apply last_assigned_Some.
Qed.

(** ** Further properties of function calls *)

(** X6: a function call whose source id is truthy and resolves to a
    truthy session id, and which has a timestamp, is filed in the
    timeline of that session, as a [function_call] event with the row's
    timestamp. *)
Theorem function_call_filed (t : tables) (r : function_call_row) (x s : ident)
    (ts : Z) :
  In r (function_calls t) ->
  fc_source_id r = Some x ->
  truthy (Some x) = true ->
  id_to_session t !! x = Some s ->
  truthy (Some s) = true ->
  fc_timestamp r = Some ts ->
  exists e evs,
    function_call_event (id_to_session t) r = Some e
    /\ build_unified_session_view t !! s = Some evs
    /\ In e evs
    /\ type e = function_call
    /\ session_id e = Some s
    /\ timestamp e = Some ts.
Proof.
  intros Hr Hx Htx Hs Hts Htime.
  assert (He : exists e, function_call_event (id_to_session t) r = Some e
                         /\ type e = function_call /\ session_id e = Some s
                         /\ timestamp e = Some ts).
  { unfold function_call_event, resolve_session. rewrite Hx, Htx. simpl.
    rewrite Hs, Hts. eexists. split; [reflexivity|]. simpl. rewrite Htime. auto. }
  destruct He as (e & He & Hty & Hse & Hte).
  destruct (build_has_event t s e) as (evs & Hb & Hin).
  - apply unified_events_In. do 3 right. left. eauto.
  - rewrite Hte. discriminate.
  - exact Hse.
  - exists e, evs. auto 10.
Qed.

Lemma function_call_filed_witness :
  exists e evs,
    function_call_event (id_to_session Samples.with_stray)
      (Samples.call (Some Samples.X) (Some 20)) = Some e
    /\ build_unified_session_view Samples.with_stray !! Samples.S1 = Some evs
    /\ In e evs.
Proof.
  destruct (function_call_filed Samples.with_stray
              (Samples.call (Some Samples.X) (Some 20)) Samples.X Samples.S1 20)
    as (e & evs & He & Hb & Hin & _);
    [by left | reflexivity | reflexivity | vm_compute; reflexivity | reflexivity
    | reflexivity |].
  by exists e, evs.
Defined.

(** X7: the tests [if source_id] and [if session_id] take the number 0
    and the empty text for missing: a call whose source id is one of
    them, or whose source resolves to one of them, yields no event,
    although the identifier is registered. *)
Theorem function_call_falsy_ids (m : gmap ident ident) (r : function_call_row)
    (x : ident) :
  fc_source_id r = Some x ->
  x = IdInt 0 \/ x = IdStr "" \/ m !! x = Some (IdInt 0) \/ m !! x = Some (IdStr "") ->
  function_call_event m r = None.
Proof.
  intros Hx H. unfold function_call_event, resolve_session. rewrite Hx.
  destruct H as [->|[->|[H|H]]]; try reflexivity;
    destruct (truthy (Some x)); simpl; rewrite ?H; reflexivity.
Qed.

Lemma function_call_falsy_ids_witness :
  id_to_session MoreSamples.zero_wrapper !! IdInt 0 = Some Samples.S1
  /\ function_call_event (id_to_session MoreSamples.zero_wrapper)
       (Samples.call (Some (IdInt 0)) (Some 2)) = None
  /\ List.map type
       (default [] (build_unified_session_view MoreSamples.zero_wrapper !! Samples.S1))
     = [agent_config].
Proof.
  split; [vm_compute; reflexivity|]. split; [|vm_compute; reflexivity].
  apply (function_call_falsy_ids _ _ (IdInt 0)); [reflexivity | by left].
Defined.

(** ** Further properties of the metrics *)

Lemma scan_event_counts (a : scan) (e : event) :
  event_counts (scan_step a e) = count_up (event_counts a) (type e).
Proof. unfold scan_step. by destruct (payload e). Qed.

Lemma scan_fold_counts (l : list event) (a : scan) (ty : event_type) :
  event_counts (fold_left scan_step l a) ty
  = (event_counts a ty + count_type ty l)%nat.
Proof.
  unfold count_type. revert a.
  induction l as [|e l IH]; intros a; simpl; [lia|].
  rewrite IH, scan_event_counts. unfold count_up.
  destruct (bool_decide (type e = ty)) eqn:He.
  - apply bool_decide_eq_true in He. rewrite bool_decide_eq_true_2 by done.
    simpl. lia.
  - apply bool_decide_eq_false in He. rewrite bool_decide_eq_false_2 by congruence.
    lia.
Qed.

Lemma calculate_scan sid (evs : list event) df m :
  calculate_session_metrics sid evs df = Ok (Some m) ->
  m_num_messages m
  = event_counts (fold_left scan_step evs scan_init) event_received_message
  /\ m_num_llm_calls m = event_counts (fold_left scan_step evs scan_init) llm_call_start
  /\ m_num_function_calls m
     = event_counts (fold_left scan_step evs scan_init) function_call
  /\ m_agents m = agent_names (fold_left scan_step evs scan_init)
  /\ m_functions m = function_names (fold_left scan_step evs scan_init)
  /\ m_models m = llm_models (fold_left scan_step evs scan_init)
  /\ m_session_id m = sid.
Proof.
  destruct evs as [|e0 rest]; [discriminate|]. rewrite calculate_cases.
  destruct (forallb model_hashable (e0 :: rest)); [|discriminate].
  destruct df; [discriminate|]. intros [= <-]. simpl. auto 10.
Qed.

(** X8: the three counters of the metrics are the numbers of events of
    the timeline whose type is [event_received_message],
    [llm_call_start] and [function_call]; an [llm_call_end] event
    counts for none of them. *)
Theorem metrics_count_events (sid : ident) (evs : list event) (df : cc_frame)
    (m : SessionMetrics) :
  calculate_session_metrics sid evs df = Ok (Some m) ->
  m_num_messages m = count_type event_received_message evs
  /\ m_num_llm_calls m = count_type llm_call_start evs
  /\ m_num_function_calls m = count_type function_call evs.
Proof.
  intros Hm. apply calculate_scan in Hm as (H1 & H2 & H3 & _).
  rewrite H1, H2, H3, !scan_fold_counts. simpl. auto.
Qed.

Lemma metrics_count_events_witness :
  exists m,
    calculate_session_metrics Samples.S1 [Samples.greeting; Samples.crashed]
      (Enriched Samples.ledger) = Ok (Some m)
    /\ m_num_messages m = 2%nat /\ m_num_llm_calls m = 0%nat
    /\ m_num_function_calls m = 0%nat.
Proof.
  eexists. split; [reflexivity|].
  apply (metrics_count_events Samples.S1 [Samples.greeting; Samples.crashed]
           (Enriched Samples.ledger)).
  reflexivity.
Defined.

Lemma filter_none {A} (f : A -> bool) (l : list A) :
  (forall x, In x l -> f x = false) -> List.filter f l = [].
Proof.
  induction l as [|x l IH]; intros H; simpl; [reflexivity|].
  rewrite (H x (or_introl eq_refl)). apply IH. intros y Hy. apply H. by right.
Qed.

Lemma sorted_length (l : list event) : length (sorted l) = length l.
Proof. apply Permutation_length, sorted_perm. Qed.

Lemma function_call_event_type (m : gmap ident ident) (r : function_call_row) e :
  function_call_event m r = Some e -> type e = function_call.
Proof.
  unfold function_call_event. destruct (truthy _); [|discriminate].
  by intros [= <-].
Qed.

(** The events that open an LLM call for [sid], among all unified
    events, are the start events of the rows that [starts_in] picks. *)
Lemma llm_starts_of_session (t : tables) (sid : ident) :
  List.filter (fun e => bool_decide (type e = llm_call_start))
    (timeline_of sid (valid_events (unified_events t)))
  = List.map llm_start_event
      (List.filter (starts_in sid) (frame_rows (chat_completions t))).
Proof.
  unfold timeline_of, valid_events, unified_events.
  rewrite !List.filter_app.
  rewrite (filter_none _ (List.filter _ (List.filter _ (List.map agent_event _)))).
  2:{ intros e (He & _)%List.filter_In. apply List.filter_In in He as [He _].
      apply in_map_iff in He as (r & <- & _). reflexivity. }
  rewrite (filter_none _ (List.filter _ (List.filter _ (List.map state_event _)))).
  2:{ intros e (He & _)%List.filter_In. apply List.filter_In in He as [He _].
      apply in_map_iff in He as (r & <- & _).
      unfold type. simpl. by destruct (is_received_message _). }
  rewrite (filter_none _ (List.filter _ (List.filter _ (omap _ _)))).
  2:{ intros e (He & _)%List.filter_In. apply List.filter_In in He as [He _].
      apply list_elem_of_In, list_elem_of_omap in He as (r & _ & He).
      by rewrite (function_call_event_type _ _ _ He). }
  rewrite (filter_none _ (List.filter _ (List.filter _ (List.map client_event _)))).
  2:{ intros e (He & _)%List.filter_In. apply List.filter_In in He as [He _].
      apply in_map_iff in He as (r & <- & _). reflexivity. }
  rewrite (filter_none _ (List.filter _ (List.filter _ (List.map wrapper_event _)))).
  2:{ intros e (He & _)%List.filter_In. apply List.filter_In in He as [He _].
      apply in_map_iff in He as (r & <- & _). reflexivity. }
  simpl. rewrite app_nil_r.
  induction (frame_rows (chat_completions t)) as [|r rows IH]; [reflexivity|].
  cbn [List.flat_map llm_events app List.filter].
  cbn [timestamp llm_start_event llm_end_event session_id].
  unfold starts_in at 1.
  destruct (cc_start_time r) as [s0|], (cc_end_time r) as [f0|];
    cbn [notna List.filter session_id llm_start_event llm_end_event];
    destruct (bool_decide (cc_session_id r = Some sid));
    cbn [List.filter andb List.map]; rewrite ?IH; reflexivity.
Qed.

(** X9: for a session of the view, the number of LLM calls in the
    metrics is the number of chat-completion rows that have this session
    id and a start time; whether a row has an end time does not
    matter. *)
Theorem llm_calls_counted_by_start (t : tables) (sid : ident) (evs : list event)
    (m : SessionMetrics) :
  build_unified_session_view t !! sid = Some evs ->
  calculate_session_metrics sid evs (chat_completions t) = Ok (Some m) ->
  m_num_llm_calls m
  = length (List.filter (starts_in sid) (frame_rows (chat_completions t))).
Proof.
  intros Hb Hm.
  apply calculate_scan in Hm as (_ & -> & _).
  rewrite scan_fold_counts. cbn [event_counts scan_init plus].
  rewrite (build_lookup_sorted _ _ _ Hb). unfold count_type.
  rewrite sorted_filter, sorted_length, llm_starts_of_session.
  apply length_map.
Qed.

Lemma llm_calls_counted_by_start_witness :
  exists m,
    session_metrics Samples.with_stray Samples.S1 = Some (Ok (Some m))
    /\ m_num_llm_calls m = 1%nat
    /\ length (session_rows Samples.S1 Samples.ledger) = 2%nat.
Proof.
  eexists. split; [vm_compute; reflexivity|]. split; [|reflexivity].
  rewrite (llm_calls_counted_by_start Samples.with_stray Samples.S1
             (default [] (build_unified_session_view Samples.with_stray !! Samples.S1)));
    vm_compute; reflexivity.
Defined.

(** *** Start, end and duration *)

Lemma py_min_spec (l : list (option Z)) (a : Z) :
  List.Forall (fun y => y <> None) l ->
  exists b, py_min (Some a) l = Some b /\ b <= a
    /\ (forall z, In (Some z) l -> b <= z)
    /\ (b = a \/ In (Some b) l).
Proof.
  unfold py_min. revert a.
  induction l as [|y l IH]; intros a Hall; simpl.
  - exists a. repeat split; [lia | intros z [] | by left].
  - apply List.Forall_cons_iff in Hall as [Hy Hl].
    destruct y as [y|]; [|congruence]. simpl.
    destruct (Z.ltb_spec y a) as [Hlt|Hge].
    + destruct (IH y Hl) as (b & Hb & Hle & Hlow & Hin).
      exists b. split; [exact Hb|]. split; [lia|]. split.
      * intros z [[= <-]|Hz]; [lia | by apply Hlow].
      * right. destruct Hin as [->|Hin]; [by left | by right].
    + destruct (IH a Hl) as (b & Hb & Hle & Hlow & Hin).
      exists b. split; [exact Hb|]. split; [lia|]. split.
      * intros z [[= <-]|Hz]; [lia | by apply Hlow].
      * destruct Hin as [->|Hin]; [by left | right; by right].
Qed.

Lemma py_max_spec (l : list (option Z)) (a : Z) :
  List.Forall (fun y => y <> None) l ->
  exists b, py_max (Some a) l = Some b /\ a <= b
    /\ (forall z, In (Some z) l -> z <= b)
    /\ (b = a \/ In (Some b) l).
Proof.
  unfold py_max. revert a.
  induction l as [|y l IH]; intros a Hall; simpl.
  - exists a. repeat split; [lia | intros z [] | by left].
  - apply List.Forall_cons_iff in Hall as [Hy Hl].
    destruct y as [y|]; [|congruence]. simpl.
    destruct (Z.ltb_spec a y) as [Hlt|Hge].
    + destruct (IH y Hl) as (b & Hb & Hle & Hup & Hin).
      exists b. split; [exact Hb|]. split; [lia|]. split.
      * intros z [[= <-]|Hz]; [lia | by apply Hup].
      * right. destruct Hin as [->|Hin]; [by left | by right].
    + destruct (IH a Hl) as (b & Hb & Hle & Hup & Hin).
      exists b. split; [exact Hb|]. split; [lia|]. split.
      * intros z [[= <-]|Hz]; [lia | by apply Hup].
      * destruct Hin as [->|Hin]; [by left | right; by right].
Qed.

Lemma calculate_times sid (e0 : event) (rest : list event) df m :
  calculate_session_metrics sid (e0 :: rest) df = Ok (Some m) ->
  m_start_time m = py_min (timestamp e0) (List.map timestamp rest)
  /\ m_end_time m = py_max (timestamp e0) (List.map timestamp rest)
  /\ m_duration m = ts_sub (m_end_time m) (m_start_time m).
Proof.
  rewrite calculate_cases.
  destruct (forallb model_hashable (e0 :: rest)); [|discriminate].
  destruct df; [discriminate|]. intros [= <-]. simpl. auto.
Qed.

(** X10: when every event of the timeline has a timestamp, the start
    time of the metrics is the smallest and the end time the largest
    timestamp of the timeline, in whatever order the events come, and
    the duration is their difference, which is not negative. *)
Theorem metrics_span (sid : ident) (evs : list event) (df : cc_frame)
    (m : SessionMetrics) :
  List.Forall (fun e => timestamp e <> None) evs ->
  calculate_session_metrics sid evs df = Ok (Some m) ->
  exists a b,
    m_start_time m = Some a /\ m_end_time m = Some b
    /\ m_duration m = Some (b - a) /\ 0 <= b - a
    /\ (forall e z, In e evs -> timestamp e = Some z -> a <= z <= b)
    /\ (exists e, In e evs /\ timestamp e = Some a)
    /\ (exists e, In e evs /\ timestamp e = Some b).
Proof.
  intros Hall Hm. destruct evs as [|e0 rest]; [discriminate|].
  apply calculate_times in Hm as (Hs & He & Hd).
  apply List.Forall_cons_iff in Hall as [H0 Hrest].
  destruct (timestamp e0) as [t0|] eqn:Ht0; [|congruence].
  assert (Hmap : List.Forall (fun y => y <> None) (List.map timestamp rest))
    by (apply List.Forall_map; exact Hrest).
  destruct (py_min_spec _ t0 Hmap) as (a & Ha & Hale & Hlow & Hain).
  destruct (py_max_spec _ t0 Hmap) as (b & Hb & Hble & Hup & Hbin).
  exists a, b. rewrite Hd, Hs, He, Ha, Hb. simpl.
  split; [reflexivity|]. split; [reflexivity|]. split; [reflexivity|].
  split; [lia|]. split; [|split].
  - intros e z [<-|Hin] Hz.
    + rewrite Ht0 in Hz. injection Hz as <-. lia.
    + assert (Hz' : In (Some z) (List.map timestamp rest))
        by (rewrite <- Hz; by apply List.in_map).
      split; [by apply Hlow | by apply Hup].
  - destruct Hain as [->|Hin]; [exists e0; split; [by left | exact Ht0]|].
    apply in_map_iff in Hin as (e & He' & Hin). exists e. split; [by right | exact He'].
  - destruct Hbin as [->|Hin]; [exists e0; split; [by left | exact Ht0]|].
    apply in_map_iff in Hin as (e & He' & Hin). exists e. split; [by right | exact He'].
Qed.

Lemma metrics_span_witness :
  exists m,
    calculate_session_metrics Samples.S1 [Samples.crashed; Samples.greeting]
      (Enriched Samples.ledger) = Ok (Some m)
    /\ m_start_time m = Some 40 /\ m_end_time m = Some 50
    /\ m_duration m = Some 10.
Proof.
  destruct (metrics_span Samples.S1 [Samples.crashed; Samples.greeting]
              (Enriched Samples.ledger)
              {| m_session_id := Samples.S1; m_start_time := Some 40;
                 m_end_time := Some 50; m_duration := Some 10;
                 m_status := Failed; m_num_messages := 2; m_num_llm_calls := 0;
                 m_num_function_calls := 0; m_agents := [Some "CTO"];
                 m_functions := []; m_models := [];
                 m_total_cost := 0x1.47ae147ae147bp-5%float;
                 m_total_tokens := 150 |})
    as (a & b & Ha & Hb & Hd & _).
  - repeat constructor; discriminate.
  - vm_compute. reflexivity.
  - eexists. split; [vm_compute; reflexivity|]. simpl. auto.
Defined.

Lemma last_In {A} (l : list A) (x : A) : last l = Some x -> In x l.
Proof. intros [l' ->]%last_Some. apply in_or_app. right. by left. Qed.

Lemma StronglySorted_last {A} (R : A -> A -> Prop) (l : list A) (x y : A) :
  StronglySorted R l -> last l = Some x -> In y l -> y = x \/ R y x.
Proof.
  induction 1 as [|z l Hl IH Hz]; [discriminate|].
  intros Hlast Hy.
  destruct l as [|z' l'].
  - left. injection Hlast as <-. by destruct Hy as [<-|[]].
  - change (last (z' :: l') = Some x) in Hlast.
    destruct Hy as [<-|Hy]; [|by apply IH].
    right. rewrite List.Forall_forall in Hz. apply Hz. by apply last_In.
Qed.

(** X11: for a session of the view, the start time of the metrics is
    the timestamp of the first event of the timeline and the end time
    that of the last. *)
(** The timestamps of a timeline of the view are there and never
    decrease. *)
Lemma timeline_stamped (t : tables) (sid : ident) (evs : list event) :
  build_unified_session_view t !! sid = Some evs ->
  List.Forall (fun e => timestamp e <> None) evs.
Proof.
  intros Hb. apply List.Forall_forall. intros e He.
  apply (build_In _ _ _ e Hb) in He. tauto.
Qed.

Lemma timeline_sorted (t : tables) (sid : ident) (evs : list event) :
  build_unified_session_view t !! sid = Some evs -> StronglySorted ts_le evs.
Proof.
  intros Hb. pose proof (timeline_stamped t sid evs Hb) as Hall.
  apply build_lookup_Some in Hb as [-> _].
  apply (StronglySorted_weaken key_le ts_le _ _ key_le_ts_le Hall).
  apply StronglySorted_filter, sorted_sorted.
Qed.

Lemma py_min_keep (x : option Z) (l : list (option Z)) :
  List.Forall (fun y => ts_lt y x = false) l -> py_min x l = x.
Proof.
  unfold py_min. induction 1 as [|y l Hy _ IH]; simpl; [reflexivity|].
  by rewrite Hy.
Qed.

Lemma py_min_first (e0 : event) (rest : list event) :
  StronglySorted ts_le (e0 :: rest) ->
  py_min (timestamp e0) (List.map timestamp rest) = timestamp e0.
Proof.
  intros [_ Hle]%StronglySorted_inv. apply py_min_keep.
  apply List.Forall_map. eapply List.Forall_impl; [|exact Hle].
  intros e He. unfold ts_le in He. unfold ts_lt.
  destruct (timestamp e0), (timestamp e); try reflexivity. apply Z.ltb_ge. lia.
Qed.

Lemma py_max_final (e0 : event) (rest : list event) :
  StronglySorted ts_le (e0 :: rest) ->
  py_max (timestamp e0) (List.map timestamp rest)
  = timestamp (default e0 (last rest)).
Proof.
  revert e0. induction rest as [|e1 rest IH]; intros e0 Hs; [reflexivity|].
  apply StronglySorted_inv in Hs as [Hrest Hle].
  apply List.Forall_cons_iff in Hle as [H01 _].
  unfold py_max. cbn [List.map fold_left]. fold (py_max).
  assert (Hacc : (if ts_lt (timestamp e0) (timestamp e1)
                  then timestamp e1 else timestamp e0) = timestamp e1).
  { unfold ts_le in H01. unfold ts_lt.
    destruct (timestamp e0) as [a|], (timestamp e1) as [b|]; try contradiction.
    destruct (Z.ltb_spec a b); [reflexivity | f_equal; lia]. }
  rewrite Hacc. change (py_max (timestamp e1) (List.map timestamp rest)
                        = timestamp (default e0 (last (e1 :: rest)))).
  rewrite (IH e1 Hrest), last_cons. by destruct (last rest).
Qed.

Theorem metrics_span_of_timeline (t : tables) (sid : ident) (evs : list event)
    (df : cc_frame) (m : SessionMetrics) :
  build_unified_session_view t !! sid = Some evs ->
  calculate_session_metrics sid evs df = Ok (Some m) ->
  exists first final,
    head evs = Some first /\ last evs = Some final
    /\ m_start_time m = timestamp first /\ m_end_time m = timestamp final
    /\ m_start_time m <> None /\ m_end_time m <> None.
Proof.
  intros Hb Hm.
  pose proof (timeline_sorted t sid evs Hb) as Hsorted.
  pose proof (timeline_stamped t sid evs Hb) as Hall.
  destruct evs as [|e0 rest]; [discriminate|].
  apply calculate_times in Hm as (Hs & He & _).
  rewrite (py_min_first e0 rest Hsorted) in Hs.
  rewrite (py_max_final e0 rest Hsorted) in He.
  exists e0, (default e0 (last rest)). rewrite Hs, He.
  split; [reflexivity|].
  split; [rewrite last_cons; by destruct (last rest)|].
  split; [reflexivity|]. split; [reflexivity|].
  rewrite List.Forall_forall in Hall.
  split; apply Hall; [by left|].
  destruct (last rest) as [final|] eqn:Hlast; [right; by apply last_In | by left].
Qed.

Lemma metrics_span_of_timeline_witness :
  exists m,
    session_metrics Samples.with_stray Samples.S1 = Some (Ok (Some m))
    /\ m_start_time m = Some 10 /\ m_end_time m = Some 30.
Proof.
  destruct (metrics_span_of_timeline Samples.with_stray Samples.S1
              (default [] (build_unified_session_view Samples.with_stray !! Samples.S1))
              (chat_completions Samples.with_stray)
              (match session_metrics Samples.with_stray Samples.S1 with
               | Some (Ok (Some m)) => m
               | _ => {| m_session_id := Samples.S1; m_start_time := None;
                         m_end_time := None; m_duration := None;
                         m_status := Completed; m_num_messages := 0;
                         m_num_llm_calls := 0; m_num_function_calls := 0;
                         m_agents := []; m_functions := []; m_models := [];
                         m_total_cost := 0%float; m_total_tokens := 0 |}
               end))
    as (first & final & Hh & Hl & Hs & He & _).
  - vm_compute. reflexivity.
  - vm_compute. reflexivity.
  - eexists. split; [vm_compute; reflexivity|].
    vm_compute in Hh, Hl. injection Hh as <-. injection Hl as <-.
    split; [exact Hs | exact He].
Defined.

(** *** Participants, functions and models *)

Lemma json_eqb_eq : forall a b, json_eqb a b = true <-> a = b.
Proof.
  fix IH 1. intros a b. destruct a as [|x|x|x|xs|xs], b as [|y|y|y|ys|ys];
    try (simpl; split; [discriminate | intros H; discriminate H]).
  - split; reflexivity.
  - simpl. rewrite Bool.eqb_true_iff. split; [by intros -> | by intros [= ->]].
  - simpl. rewrite Z.eqb_eq. split; [by intros -> | by intros [= ->]].
  - simpl. rewrite String.eqb_eq. split; [by intros -> | by intros [= ->]].
  - simpl. revert ys. induction xs as [|x xs IHxs]; intros [|y ys];
      try (split; [discriminate | intros H; discriminate H]).
    + split; reflexivity.
    + rewrite andb_true_iff, IH, IHxs.
      split; [by intros [-> [= ->]] | by intros [= -> ->]].
  - simpl. revert ys. induction xs as [|[k x] xs IHxs]; intros [|[k' y] ys];
      try (split; [discriminate | intros H; discriminate H]).
    + split; reflexivity.
    + rewrite !andb_true_iff, String.eqb_eq, IH, IHxs.
      split; [by intros [[-> ->] [= ->]] | by intros [= -> -> ->]].
Qed.

Lemma name_eqb_eq (a b : option string) : name_eqb a b = true <-> a = b.
Proof. unfold name_eqb. apply bool_decide_eq_true. Qed.

Section SetAdd.

Context {A : Type} (eqb : A -> A -> bool).
Hypothesis eqb_eq : forall a b, eqb a b = true <-> a = b.

Lemma set_add_In (x y : A) (s : list A) :
  In x (set_add eqb y s) <-> x = y \/ In x s.
Proof.
  unfold set_add. destruct (existsb (eqb y) s) eqn:Hex.
  - apply existsb_exists in Hex as (z & Hz & Heq). apply eqb_eq in Heq. subst z.
    split; [by right | by intros [->|?]].
  - rewrite in_app_iff. simpl. split; [intros [?|[->|[]]]; auto | intros [->|?]; auto].
Qed.

Lemma set_add_NoDup (y : A) (s : list A) : List.NoDup s -> List.NoDup (set_add eqb y s).
Proof.
  intros Hs. unfold set_add. destruct (existsb (eqb y) s) eqn:Hex; [exact Hs|].
  apply NoDup_ListNoDup, NoDup_app. split; [by apply NoDup_ListNoDup|].
  split; [|apply NoDup_singleton].
  intros x Hx Hy%list_elem_of_singleton. subst x.
  assert (Ht : existsb (eqb y) s = true); [|congruence].
  apply existsb_exists. exists y. split; [by apply list_elem_of_In | by apply eqb_eq].
Qed.

End SetAdd.

Lemma py_eqb_key (a b : json) : py_eqb a b = true <-> py_key a = py_key b.
Proof. unfold py_eqb. apply json_eqb_eq. Qed.

Section SetAddKey.

Context {A B : Type} (eqb : A -> A -> bool) (key : A -> B).
Hypothesis eqb_key : forall a b, eqb a b = true <-> key a = key b.

Lemma set_add_keeps (x y : A) (s : list A) : In x s -> In x (set_add eqb y s).
Proof.
  unfold set_add. destruct (existsb (eqb y) s); [done|].
  intros H. apply in_app_iff. by left.
Qed.

Lemma set_add_member (x y : A) (s : list A) : In x (set_add eqb y s) -> x = y \/ In x s.
Proof.
  unfold set_add. destruct (existsb (eqb y) s); [by right|].
  rewrite in_app_iff. simpl. intros [?|[->|[]]]; auto.
Qed.

Lemma set_add_key_In (y : A) (s : list A) : In (key y) (List.map key (set_add eqb y s)).
Proof.
  unfold set_add. destruct (existsb (eqb y) s) eqn:Hex.
  - apply existsb_exists in Hex as (z & Hz & Heq). apply eqb_key in Heq.
    rewrite Heq. by apply in_map.
  - rewrite List.map_app, in_app_iff. right. by left.
Qed.

Lemma set_add_key_NoDup (y : A) (s : list A) :
  List.NoDup (List.map key s) -> List.NoDup (List.map key (set_add eqb y s)).
Proof.
  intros Hs. unfold set_add. destruct (existsb (eqb y) s) eqn:Hex; [exact Hs|].
  rewrite List.map_app. simpl.
  apply NoDup_ListNoDup, NoDup_app. split; [by apply NoDup_ListNoDup|].
  split; [|apply NoDup_singleton].
  intros x Hx Hy%list_elem_of_singleton. subst x.
  apply list_elem_of_In, in_map_iff in Hx as (z & Hz & Hin).
  assert (Ht : existsb (eqb y) s = true); [|congruence].
  apply existsb_exists. exists z. split; [exact Hin | by apply eqb_key].
Qed.

End SetAddKey.

Lemma scan_step_names (a : scan) (e : event) :
  agent_names (scan_step a e) = set_add name_eqb (source_name e) (agent_names a)
  /\ function_names (scan_step a e)
     = match payload e with
       | FunctionCall f _ _ => set_add name_eqb f (function_names a)
       | _ => function_names a
       end
  /\ llm_models (scan_step a e)
     = match payload e with
       | LlmRequest _ _ model _ => set_add py_eqb model (llm_models a)
       | _ => llm_models a
       end.
Proof. unfold scan_step. by destruct (payload e). Qed.

Lemma scan_fold_names (l : list event) (a0 : scan) :
  names_invariant l a0 (fold_left scan_step l a0).
Proof.
  induction l as [|e l IH] using rev_ind.
  - unfold names_invariant. simpl. repeat split; try tauto;
      try (intros [?|(? & [] & _)]; assumption);
      try (intros [?|(? & ? & ? & [] & _)]; assumption);
      try (intros ? ? ? ? ? []).
  - rewrite fold_left_app. simpl.
    destruct IH as (Ha & Hf & HaIn & HfIn & Hm & HmIn & Hkeep & Hkey).
    destruct (scan_step_names (fold_left scan_step l a0) e) as (Ea & Ef & Em).
    unfold names_invariant. rewrite Ea, Ef, Em.
    split; [intros H; apply set_add_NoDup; [apply name_eqb_eq | by apply Ha]|].
    split; [intros H; destruct (payload e); try (by apply Hf);
            apply set_add_NoDup; [apply name_eqb_eq | by apply Hf]|].
    split; [|split; [|split; [|split; [|split]]]].
    + intros x. rewrite (set_add_In _ name_eqb_eq), HaIn.
      setoid_rewrite in_app_iff. simpl. split.
      * intros [->|[H|(e' & He' & Hx)]]; eauto 10.
      * intros [H|(e' & [He'|[<-|[]]] & Hx)]; eauto 10.
    + intros f. destruct (payload e) as [| | | | f' args' ret' | |] eqn:Hp;
        try (rewrite HfIn; setoid_rewrite in_app_iff; simpl; split;
             [intros [H|(e' & ar & rt & He' & Hx)]; eauto 10
             |intros [H|(e' & ar & rt & [He'|[<-|[]]] & Hx)]; eauto 10; congruence]).
      rewrite (set_add_In _ name_eqb_eq), HfIn.
      setoid_rewrite in_app_iff. simpl. split.
      * intros [->|[H|(e' & ar & rt & He' & Hx)]]; eauto 10.
      * intros [H|(e' & ar & rt & [He'|[<-|[]]] & Hx)]; eauto 10.
        left. congruence.
    + intros H. destruct (payload e); try (by apply Hm).
      apply (set_add_key_NoDup _ _ py_eqb_key). by apply Hm.
    + intros model Hin.
      assert (Hold : In model (llm_models (fold_left scan_step l a0)) ->
                     In model (llm_models a0)
                     \/ exists e' i req w,
                          In e' (l ++ [e]) /\ payload e' = LlmRequest i req model w).
      { intros H. destruct (HmIn model H) as [?|(e' & i & rq & w & He' & Hx)]; [by left|].
        right. exists e', i, rq, w. split; [apply in_app_iff; by left | exact Hx]. }
      destruct (payload e) as [| | i' req' model' w' | | | |] eqn:Hp; try (by apply Hold).
      apply set_add_member in Hin as [->|Hin]; [|by apply Hold].
      right. exists e, i', req', w'. split; [apply in_app_iff; right; by left | exact Hp].
    + intros model Hin. apply Hkeep in Hin.
      destruct (payload e); try assumption. by apply set_add_keeps.
    + intros e' i rq model w [He'|[<-|[]]]%in_app_iff Hx.
      * pose proof (Hkey e' i rq model w He' Hx) as Hk.
        destruct (payload e); try assumption.
        apply in_map_iff in Hk as (z & <- & Hz).
        apply in_map. by apply set_add_keeps.
      * rewrite Hx. apply (set_add_key_In _ _ py_eqb_key).
Qed.

(** X12: the participants of the metrics are the source names of the
    events of the timeline and the functions are the function names of
    its [function_call] events, each listed once; the models are
    hashable models of its [llm_call_start] events, no two of them
    equal for Python, which takes [True] for 1 and [False] for 0, and
    the model of every such event is equal for Python to one of
    them. *)
Theorem metrics_sets (sid : ident) (evs : list event) (df : cc_frame)
    (m : SessionMetrics) :
  calculate_session_metrics sid evs df = Ok (Some m) ->
  List.NoDup (m_agents m) /\ List.NoDup (m_functions m)
  /\ List.NoDup (List.map py_key (m_models m))
  /\ (forall x, In x (m_agents m) <-> exists e, In e evs /\ source_name e = x)
  /\ (forall f, In f (m_functions m) <->
        exists e args ret, In e evs /\ payload e = FunctionCall f args ret)
  /\ (forall model, In model (m_models m) ->
        hashable model = true
        /\ exists e i req w, In e evs /\ payload e = LlmRequest i req model w)
  /\ (forall e i req model w, In e evs -> payload e = LlmRequest i req model w ->
        exists model', In model' (m_models m) /\ py_eqb model model' = true).
Proof.
  intros Hm. pose proof (calculate_Some_inv _ _ _ _ Hm) as (_ & Hh & _).
  apply calculate_scan in Hm as (_ & _ & _ & -> & -> & -> & _).
  destruct (scan_fold_names evs scan_init)
    as (Ha & Hf & HaIn & HfIn & Hmo & HmIn & _ & Hkey).
  split; [apply Ha; constructor|]. split; [apply Hf; constructor|].
  split; [apply Hmo; constructor|].
  split; [|split; [|split]].
  - intros x. rewrite HaIn. simpl. tauto.
  - intros f. rewrite HfIn. simpl. tauto.
  - intros model Hin. destruct (HmIn model Hin) as [[]|(e & i & rq & w & He & Hp)].
    split; [|by exists e, i, rq, w].
    rewrite forallb_forall in Hh. specialize (Hh e He).
    unfold model_hashable in Hh. by rewrite Hp in Hh.
  - intros e i rq model w He Hp.
    pose proof (Hkey e i rq model w He Hp) as Hk.
    apply in_map_iff in Hk as (z & Hz & Hin). exists z. split; [exact Hin|].
    by apply py_eqb_key.
Qed.

Lemma metrics_sets_witness :
  exists m,
    calculate_session_metrics Samples.S1
      [llm_start_event (MoreSamples.numbered (JInt 1) 5);
       llm_start_event (MoreSamples.numbered (JBool true) 6)] (Enriched [])
    = Ok (Some m)
    /\ m_agents m = [Some "CEO"]
    /\ m_models m = [JInt 1]
    /\ List.NoDup (List.map py_key (m_models m)).
Proof.
  eexists. split; [vm_compute; reflexivity|].
  split; [reflexivity|]. split; [reflexivity|].
  refine (proj1 (proj2 (proj2 (metrics_sets Samples.S1
                   [llm_start_event (MoreSamples.numbered (JInt 1) 5);
                    llm_start_event (MoreSamples.numbered (JBool true) 6)]
                   (Enriched []) _ _)))).
  vm_compute. reflexivity.
Defined.

(** ** Further properties of loading *)

Lemma enrich_row_raise_inv (r : cc_row) (e : exn) :
  enrich_row r = Raise e -> extract_tokens (cc_response_dict r) = Raise e.
Proof.
  unfold enrich_row.
  destruct (extract_tokens (cc_response_dict r)) as [[[a b] c]|e']; cbn;
    [discriminate | by intros [= ->]].
Qed.

Lemma enrich_row_base (r : cc_row) (d : cc_enriched) :
  enrich_row r = Ok d -> cc_base d = normalize_source_name r.
Proof. intros H. by apply enrich_row_derived in H as [? _]. Qed.

Lemma mapM_ok_inv {A B} (f : A -> result B) (l : list A) (bs : list B) :
  mapM f l = Ok bs -> Forall2 (fun a b => f a = Ok b) l bs.
Proof.
  revert bs. induction l as [|x l IH]; intros bs; cbn [mapM].
  - intros [= <-]. constructor.
  - destruct (f x) as [b|e] eqn:Hx; [|discriminate].
    destruct (mapM f l) as [bs'|e]; [|discriminate].
    intros [= <-]. constructor; [exact Hx | by apply IH].
Qed.

Lemma enriched_bases (rows : list cc_row) (out : list cc_enriched) :
  Forall2 (fun r d => enrich_row r = Ok d) rows out ->
  List.map normalize_source_name rows = List.map cc_base out.
Proof.
  induction 1 as [|r d rows out Hrd _ IH]; [reflexivity|].
  simpl. by rewrite (enrich_row_base _ _ Hrd), IH.
Qed.

(** X13: loading is all or nothing.  [load_database] returns nothing
    exactly when the usage counts of some chat-completion row cannot be
    read; one such row makes the whole snapshot unavailable. *)
Theorem load_fails_iff_some_row_fails (s : snapshot) :
  load_database s = None <->
  exists r e, In r (s_chat_completions s)
              /\ extract_tokens (cc_response_dict r) = Raise e.
Proof.
  unfold load_database, enrich_chat_completions.
  destruct (s_chat_completions s) as [|r0 rows] eqn:Hrows.
  - split; [discriminate | intros (r & e & [] & _)].
  - destruct (mapM enrich_row (r0 :: rows)) as [out|e] eqn:Hmap; cbn.
    + split; [discriminate|]. intros (r & e & Hr & He).
      destruct (mapM_raise enrich_row (r0 :: rows) r e Hr (enrich_row_raise _ _ He))
        as [e' He'].
      congruence.
    + split; [|reflexivity]. intros _.
      destruct (mapM_raise_inv _ _ _ Hmap) as (r & Hr & He).
      exists r, e. split; [exact Hr | by apply enrich_row_raise_inv].
Qed.

(** X14: a successful load hands on the five other tables as they are,
    and the chat completions row for row and in order, with nothing but
    the source name rewritten (upper case, stripped); the derived
    columns are there exactly when the table is not empty. *)
Theorem load_keeps_tables (s : snapshot) (t : tables) :
  load_database s = Some t ->
  agents t = s_agents s /\ events t = s_events s
  /\ function_calls t = s_function_calls s
  /\ oai_clients t = s_oai_clients s /\ oai_wrappers t = s_oai_wrappers s
  /\ frame_rows (chat_completions t)
     = List.map normalize_source_name (s_chat_completions s)
  /\ (s_chat_completions s = [] <-> chat_completions t = Plain [])
  /\ (s_chat_completions s <> [] <-> exists out, chat_completions t = Enriched out).
Proof.
  unfold load_database, enrich_chat_completions.
  destruct (s_chat_completions s) as [|r0 rows] eqn:Hrows.
  - intros [= <-]. simpl. repeat split; try reflexivity; try congruence.
    + intros [out H]. discriminate H.
  - destruct (mapM enrich_row (r0 :: rows)) as [out|e] eqn:Hmap; cbn; [|discriminate].
    intros [= <-]. simpl.
    split; [reflexivity|]. split; [reflexivity|]. split; [reflexivity|].
    split; [reflexivity|]. split; [reflexivity|]. split; [|split].
    + apply mapM_ok_inv in Hmap. symmetry.
      exact (enriched_bases (r0 :: rows) out Hmap).
    + split; discriminate.
    + split; [intros _; by exists out | discriminate].
Qed.

Lemma load_keeps_tables_witness :
  exists t, load_database Scenario.snap = Some t
    /\ agents t = [Scenario.agent1]
    /\ List.map cc_source_name (frame_rows (chat_completions t)) = [Some "CEO"].
Proof.
  eexists. split; [vm_compute; reflexivity|].
  match goal with
  | |- agents ?t = _ /\ _ =>
      destruct (load_keeps_tables Scenario.snap t) as (Ha & _ & _ & _ & _ & Hrows & _)
  end.
  - vm_compute. reflexivity.
  - split; [exact Ha|]. rewrite Hrows. vm_compute. reflexivity.
Defined.

(** ** From the snapshot to the metrics *)

Lemma load_enriched (s : snapshot) (t : tables) :
  load_database s = Some t ->
  s_chat_completions s <> [] ->
  exists out, chat_completions t = Enriched out
    /\ Forall2 (fun r d => enrich_row r = Ok d) (s_chat_completions s) out.
Proof.
  unfold load_database, enrich_chat_completions.
  destruct (s_chat_completions s) as [|r0 rows]; [congruence|].
  destruct (mapM enrich_row (r0 :: rows)) as [out|e] eqn:Hmap; cbn; [|discriminate].
  intros [= <-] _. exists out. split; [reflexivity | by apply mapM_ok_inv].
Qed.

(** Only a chat-completion row can bring a model that cannot be hashed
    into a timeline. *)
Lemma timeline_models_hashable (t : tables) (sid : ident) (evs : list event) :
  (forall r, In r (frame_rows (chat_completions t)) ->
             cc_session_id r = Some sid -> cc_start_time r <> None ->
             model_hashable (llm_start_event r) = true) ->
  build_unified_session_view t !! sid = Some evs ->
  forallb model_hashable evs = true.
Proof.
  intros Hrows Hb. apply forallb_forall. intros e He.
  apply (build_In _ _ _ e Hb) in He as (Hu & Hts & Hs).
  apply unified_events_In in Hu
    as [(r & Hr & ->)|[(r & Hr & ->)|[(r & Hr & [-> | ->])|[(r & Hr & He)|
       [(r & Hr & ->)|(r & Hr & ->)]]]]]; try reflexivity.
  - by apply Hrows.
  - unfold function_call_event in He.
    destruct (truthy _); [|discriminate]. by injection He as <-.
Qed.

(** X15: a snapshot without chat completions loads, but then the frame
    has no token column, and the metrics of every session of the view
    end in a [KeyError] on ['total_tokens']. *)
Theorem no_completions_no_metrics (s : snapshot) :
  s_chat_completions s = [] ->
  exists t, load_database s = Some t
    /\ chat_completions t = Plain []
    /\ (forall sid, is_Some (build_unified_session_view t !! sid) ->
          session_metrics t sid = Some (Raise (KeyError "total_tokens")))
    /\ (forall sid, build_unified_session_view t !! sid = None ->
          session_metrics t sid = None).
Proof.
  intros Hcc. unfold load_database, enrich_chat_completions. rewrite Hcc.
  eexists. split; [reflexivity|]. split; [reflexivity|]. split.
  - intros sid [evs Hb]. unfold session_metrics. rewrite Hb. cbn.
    pose proof (build_lookup_Some _ _ _ Hb) as [_ Hne].
    assert (Hh : forallb model_hashable evs = true)
      by (eapply timeline_models_hashable; [|exact Hb]; intros r []).
    destruct evs as [|e0 rest]; [congruence|]. by rewrite calculate_cases, Hh.
  - intros sid Hb. unfold session_metrics. by rewrite Hb.
Qed.

Lemma no_completions_no_metrics_witness :
  exists t,
    load_database
      {| s_agents := [Scenario.agent1]; s_chat_completions := []; s_events := [];
         s_function_calls := [Scenario.call1]; s_oai_clients := [];
         s_oai_wrappers := [] |} = Some t
    /\ List.map type (default [] (build_unified_session_view t !! Scenario.S1))
       = [agent_config; function_call]
    /\ session_metrics t Scenario.S1 = Some (Raise (KeyError "total_tokens")).
Proof.
  destruct (no_completions_no_metrics
              {| s_agents := [Scenario.agent1]; s_chat_completions := [];
                 s_events := []; s_function_calls := [Scenario.call1];
                 s_oai_clients := []; s_oai_wrappers := [] |})
    as (t & Ht & _ & Hraise & _); [reflexivity|].
  exists t. split; [exact Ht|].
  vm_compute in Ht. injection Ht as <-.
  split; [vm_compute; reflexivity|].
  apply Hraise. vm_compute. by eexists.
Defined.

(** X16: when the snapshot has at least one chat completion and loads,
    every session of the view whose timeline has no list or object as
    the model of a call gets its metrics, a record under that session's
    id; the other sessions of the view end in a [TypeError].  No
    session of the view gets the empty dict or a [KeyError]. *)
Theorem every_session_has_metrics (s : snapshot) (t : tables) (sid : ident)
    (evs : list event) :
  s_chat_completions s <> [] ->
  load_database s = Some t ->
  build_unified_session_view t !! sid = Some evs ->
  (forallb model_hashable evs = true ->
   exists m, session_metrics t sid = Some (Ok (Some m)) /\ m_session_id m = sid)
  /\ (forallb model_hashable evs = false ->
      session_metrics t sid = Some (Raise TypeError)).
Proof.
  intros Hne Hload Hb.
  destruct (load_enriched s t Hload Hne) as (out & Hout & _).
  pose proof (build_lookup_Some _ _ _ Hb) as [_ Hevs].
  unfold session_metrics. rewrite Hb, Hout. cbn. split; intros Hh.
  - destruct (calculate_returns sid evs out Hevs Hh) as (m & Hm & _).
    exists m. rewrite Hm.
    split; [reflexivity|]. by apply calculate_scan in Hm as (_ & _ & _ & _ & _ & _ & ?).
  - destruct evs as [|e0 rest]; [congruence|]. by rewrite calculate_cases, Hh.
Qed.

Lemma every_session_has_metrics_witness :
  exists t m, load_database Scenario.snap = Some t
    /\ session_metrics t Scenario.S1 = Some (Ok (Some m))
    /\ m_session_id m = Scenario.S1.
Proof.
  eexists. 
  match goal with
  | |- exists m, load_database _ = Some ?t /\ _ =>
      destruct (every_session_has_metrics Scenario.snap t Scenario.S1
                  (default [] (build_unified_session_view t !! Scenario.S1)))
        as [Hret _]
  end.
  - discriminate.
  - vm_compute. reflexivity.
  - vm_compute. reflexivity.
  - destruct Hret as (m & Hm & Hid); [vm_compute; reflexivity|].
    exists m. split; [vm_compute; reflexivity|]. by split.
Defined.

Lemma Forall2_filter {A B} (R : A -> B -> Prop) (f : A -> bool) (g : B -> bool)
    (l : list A) (k : list B) :
  (forall a b, R a b -> f a = g b) ->
  Forall2 R l k -> Forall2 R (List.filter f l) (List.filter g k).
Proof.
  intros Hfg. induction 1 as [|a b l k Hab _ IH]; simpl; [constructor|].
  rewrite <- (Hfg a b Hab). destruct (f a); [by constructor | exact IH].
Qed.

Lemma Forall2_map_eq {A B C} (R : A -> B -> Prop) (f : A -> C) (g : B -> C)
    (l : list A) (k : list B) :
  (forall a b, R a b -> f a = g b) ->
  Forall2 R l k -> List.map f l = List.map g k.
Proof.
  intros Hfg. induction 1 as [|a b l k Hab _ IH]; simpl; [reflexivity|].
  by rewrite (Hfg a b Hab), IH.
Qed.

Lemma enrich_row_fields (r : cc_row) (d : cc_enriched) :
  enrich_row r = Ok d ->
  cc_session_id (cc_base d) = cc_session_id r
  /\ cc_cost (cc_base d) = cc_cost r
  /\ cc_total_tokens d = usage_total r.
Proof.
  intros H. apply enrich_row_derived in H as (Hb & Hx & _).
  rewrite Hb. unfold usage_total. rewrite Hx. auto.
Qed.

(** X17: from the snapshot to the metrics of a session whose timeline
    has no list or object as the model of a call, the token total is
    the sum of the [total_tokens] that the responses of its
    chat-completion rows report, and the cost total the sum of their
    costs, over all rows of the snapshot with that session id. *)
Theorem totals_from_snapshot (s : snapshot) (t : tables) (sid : ident)
    (evs : list event) :
  s_chat_completions s <> [] ->
  load_database s = Some t ->
  build_unified_session_view t !! sid = Some evs ->
  forallb model_hashable evs = true ->
  exists m,
    session_metrics t sid = Some (Ok (Some m))
    /\ m_total_tokens m
       = sum_tokens (List.map usage_total (rows_of_session sid (s_chat_completions s)))
    /\ m_total_cost m
       = sum_cost (List.map cc_cost (rows_of_session sid (s_chat_completions s))).
Proof.
  intros Hne Hload Hb Hh.
  destruct (load_enriched s t Hload Hne) as (out & Hout & Hall).
  pose proof (build_lookup_Some _ _ _ Hb) as [_ Hevs].
  destruct (calculate_returns sid evs out Hevs Hh) as (m & Hm & _ & Hc & Ht).
  exists m. unfold session_metrics. rewrite Hb, Hout. cbn. rewrite Hm.
  split; [reflexivity|].
  assert (Hsel : Forall2 (fun r d => enrich_row r = Ok d)
                   (rows_of_session sid (s_chat_completions s)) (session_rows sid out)).
  { unfold rows_of_session, session_rows. apply Forall2_filter; [|exact Hall].
    intros r d Hrd. by destruct (enrich_row_fields r d Hrd) as (-> & _). }
  split.
  - rewrite Ht. f_equal. symmetry.
    apply (Forall2_map_eq _ _ _ _ _ (fun r d H => eq_sym (proj2 (proj2 (enrich_row_fields r d H)))) Hsel).
  - rewrite Hc. f_equal. symmetry.
    apply (Forall2_map_eq _ _ _ _ _ (fun r d H => eq_sym (proj1 (proj2 (enrich_row_fields r d H)))) Hsel).
Qed.

Lemma totals_from_snapshot_witness :
  exists t m, load_database Scenario.snap = Some t
    /\ session_metrics t Scenario.S1 = Some (Ok (Some m))
    /\ m_total_tokens m = 100
    /\ m_total_cost m = Samples.two_cents.
Proof.
  eexists.
  match goal with
  | |- exists m, load_database _ = Some ?t /\ _ =>
      destruct (totals_from_snapshot Scenario.snap t Scenario.S1
                  (default [] (build_unified_session_view t !! Scenario.S1)))
        as (m & Hm & Ht & Hc)
  end.
  - discriminate.
  - vm_compute. reflexivity.
  - vm_compute. reflexivity.
  - vm_compute. reflexivity.
  - exists m. split; [vm_compute; reflexivity|]. split; [exact Hm|].
    rewrite Ht, Hc. split; vm_compute; reflexivity.
Defined.

(** X22: a chat-completion row with a start time whose request has a
    list or an object under ['model'] makes the metrics of its session
    end in a [TypeError], whatever else the tables hold; a row without
    start time does not, its start event being out of the timeline. *)
Theorem unhashable_model_raises (t : tables) (sid : ident) (r : cc_row) :
  In r (frame_rows (chat_completions t)) ->
  cc_session_id r = Some sid ->
  cc_start_time r <> None ->
  hashable (dict_get "model" (cc_request_dict r) (JStr "Unknown")) = false ->
  (exists evs, build_unified_session_view t !! sid = Some evs
               /\ In (llm_start_event r) evs)
  /\ session_metrics t sid = Some (Raise TypeError).
Proof.
  intros Hr Hs Hts Hh.
  destruct (build_unified_session_view t !! sid) as [evs|] eqn:Hb.
  - assert (Hin : In (llm_start_event r) evs).
    { apply (build_In _ _ _ _ Hb). split; [by apply llm_start_event_In | by split]. }
    split; [by exists evs|]. unfold session_metrics. rewrite Hb. cbn.
    assert (Hf : forallb model_hashable evs = false).
    { destruct (forallb model_hashable evs) eqn:Hall; [|reflexivity].
      rewrite forallb_forall in Hall. specialize (Hall _ Hin).
      unfold model_hashable in Hall. simpl in Hall. congruence. }
    destruct evs as [|e0 rest]; [destruct Hin|]. by rewrite calculate_cases, Hf.
  - exfalso. unfold build_unified_session_view in Hb.
    rewrite group_by_session_lookup in Hb.
    destruct (timeline_of _ _) as [|e0 rest] eqn:E; [|discriminate].
    assert (Hin : In (llm_start_event r)
                    (timeline_of sid (sorted (valid_events (unified_events t))))).
    { rewrite timeline_of_In, sorted_In, valid_events_In.
      split; [split; [by apply llm_start_event_In | exact Hts] | exact Hs]. }
    rewrite E in Hin. destruct Hin.
Qed.

Lemma unhashable_model_raises_witness :
  session_metrics MoreSamples.listed_models Samples.S1 = Some (Raise TypeError).
Proof.
  apply (unhashable_model_raises MoreSamples.listed_models Samples.S1
           MoreSamples.two_models).
  - by left.
  - reflexivity.
  - discriminate.
  - reflexivity.
Defined.

(** ** Where an event comes from *)

Lemma is_received_message_eq (name : option string) :
  is_received_message name = true <-> name = Some "received_message".
Proof.
  unfold is_received_message. destruct name as [n|]; [|split; discriminate].
  rewrite String.eqb_eq. split; [by intros -> | by intros [= ->]].
Qed.

(** X18: the type of a unified event tells the table and the row it was
    made from; an events-table row gives [event_received_message]
    exactly when its event name is "received_message". *)
Theorem event_type_tells_table (t : tables) (e : event) :
  In e (unified_events t) ->
  match type e with
  | agent_config => exists r, In r (agents t) /\ e = agent_event r
  | event_received_message =>
      exists r, In r (events t) /\ e = state_event r
                /\ ev_event_name r = Some "received_message"
  | event_other =>
      exists r, In r (events t) /\ e = state_event r
                /\ ev_event_name r <> Some "received_message"
  | llm_call_start =>
      exists r, In r (frame_rows (chat_completions t)) /\ e = llm_start_event r
  | llm_call_end =>
      exists r, In r (frame_rows (chat_completions t)) /\ e = llm_end_event r
  | function_call =>
      exists r, In r (function_calls t)
                /\ function_call_event (id_to_session t) r = Some e
  | client_config => exists r, In r (oai_clients t) /\ e = client_event r
  | wrapper_config => exists r, In r (oai_wrappers t) /\ e = wrapper_event r
  end.
Proof.
  rewrite unified_events_In.
  intros [(r & Hr & ->)|[(r & Hr & ->)|[(r & Hr & [-> | ->])|[(r & Hr & He)|
         [(r & Hr & ->)|(r & Hr & ->)]]]]].
  - simpl. eauto.
  - unfold type. simpl.
    destruct (is_received_message (ev_event_name r)) eqn:Hn.
    + apply is_received_message_eq in Hn. eauto.
    + exists r. repeat split; [exact Hr|].
      intros H%is_received_message_eq. congruence.
  - simpl. eauto.
  - simpl. eauto.
  - rewrite (function_call_event_type _ _ _ He). eauto.
  - simpl. eauto.
  - simpl. eauto.
Qed.

Lemma event_type_tells_table_witness :
  exists r, In r (events MoreSamples.talk)
    /\ Samples.greeting = state_event r
    /\ ev_event_name r = Some "received_message".
Proof.
  assert (H : In Samples.greeting (unified_events MoreSamples.talk))
    by (vm_compute; tauto).
  exact (event_type_tells_table MoreSamples.talk Samples.greeting H).
Defined.

(** ** The role of a source name *)

Lemma contains_underscore_cons (c : ascii) (s : string) :
  contains "_" (String c s) = (Ascii.eqb c "_" || contains "_" s)%bool.
Proof.
  cbn [contains String.prefix].
  destruct (ascii_dec "_" c) as [<-|Hne]; [by destruct s|].
  destruct (Ascii.eqb_spec c "_"%char) as [->|_]; [congruence | reflexivity].
Qed.

Lemma split_not_nil (sep : ascii) (s : string) : split sep s <> [].
Proof.
  destruct s as [|c s]; simpl; [discriminate|].
  destruct (Ascii.eqb c sep); [discriminate|].
  destruct (split sep s); discriminate.
Qed.

Lemma split_no_separator (s : string) :
  contains "_" s = false -> split "_" s = [s].
Proof.
  induction s as [|c s IH]; [reflexivity|].
  rewrite contains_underscore_cons. intros [Hc Hs]%orb_false_iff.
  simpl. rewrite Hc, (IH Hs). reflexivity.
Qed.

Lemma split_with_separator (s : string) :
  contains "_" s = true -> exists seg seg' segs, split "_" s = seg :: seg' :: segs.
Proof.
  induction s as [|c s IH]; [discriminate|].
  rewrite contains_underscore_cons. simpl.
  destruct (Ascii.eqb c "_") eqn:Hc; simpl.
  - intros _. destruct (split "_" s) as [|x l] eqn:E; [by apply split_not_nil in E|].
    by exists EmptyString, x, l.
  - intros Hs. destruct (IH Hs) as (seg & seg' & segs & ->).
    by exists (String c seg), seg', segs.
Qed.

Lemma last_split_cons (c : ascii) (s : string) :
  List.last (split "_" (String c s)) EmptyString
  = if (Ascii.eqb c "_" || contains "_" s)%bool
    then List.last (split "_" s) EmptyString
    else String c s.
Proof.
  simpl. destruct (Ascii.eqb c "_") eqn:Hc; simpl.
  - destruct (split "_" s) as [|x l] eqn:E; [by apply split_not_nil in E|].
    reflexivity.
  - destruct (contains "_" s) eqn:Hs.
    + destruct (split_with_separator s Hs) as (seg & seg' & segs & ->). reflexivity.
    + by rewrite (split_no_separator s Hs).
Qed.

Lemma last_segment_spec (s : string) :
  contains "_" (List.last (split "_" s) EmptyString) = false
  /\ (if contains "_" s
      then exists p, s = p +:+ "_" +:+ List.last (split "_" s) EmptyString
      else List.last (split "_" s) EmptyString = s).
Proof.
  induction s as [|c s [IHno IHdec]]; [by split|].
  rewrite last_split_cons, contains_underscore_cons.
  destruct (Ascii.eqb c "_") eqn:Hc; simpl.
  - split; [exact IHno|]. apply Ascii.eqb_eq in Hc. subst c.
    destruct (contains "_" s).
    + destruct IHdec as [p Hp]. exists (String "_" p).
      change (String "_" s
              = String "_" (p +:+ "_" +:+ List.last (split "_" s) EmptyString)).
      f_equal. exact Hp.
    + exists EmptyString. simpl. by rewrite IHdec.
  - destruct (contains "_" s) eqn:Hs.
    + split; [exact IHno|]. destruct IHdec as [p Hp].
      exists (String c p).
      change (String c s
              = String c (p +:+ "_" +:+ List.last (split "_" s) EmptyString)).
      f_equal. exact Hp.
    + split; [|reflexivity]. by rewrite contains_underscore_cons, Hc, Hs.
Qed.

Lemma last_split_app (p r : string) :
  contains "_" r = false ->
  List.last (split "_" (p +:+ "_" +:+ r)) EmptyString = r
  /\ contains "_" (p +:+ "_" +:+ r) = true.
Proof.
  intros Hr. induction p as [|c p [IHl IHc]].
  - change (EmptyString +:+ "_" +:+ r) with (String "_" r).
    rewrite last_split_cons, contains_underscore_cons. simpl.
    by rewrite (split_no_separator r Hr).
  - change (String c p +:+ "_" +:+ r) with (String c (p +:+ "_" +:+ r)).
    rewrite last_split_cons, contains_underscore_cons, IHc.
    by rewrite orb_true_r.
Qed.

(** X19: the role under which an event is drawn is the part of the
    source name after its last underscore: it has no underscore, the
    name is the role or ends with an underscore followed by the role,
    and a name made of any prefix, an underscore and a text [r] without
    underscore has the role [r].  The test ['_' in source] changes
    nothing: the last piece of the split is the role in both cases. *)
Theorem role_is_last_segment (source : string) :
  contains "_" (role_of source) = false
  /\ (role_of source = source \/ exists p, source = p +:+ "_" +:+ role_of source)
  /\ role_of source = List.last (split "_" source) EmptyString
  /\ role_of (role_of source) = role_of source
  /\ (forall p r, contains "_" r = false -> role_of (p +:+ "_" +:+ r) = r).
Proof.
  assert (Hlast : role_of source = List.last (split "_" source) EmptyString).
  { unfold role_of. destruct (contains "_" source) eqn:Hs; [reflexivity|].
    by rewrite (split_no_separator _ Hs). }
  destruct (last_segment_spec source) as [Hno Hdec].
  rewrite <- Hlast in Hno, Hdec.
  split; [exact Hno|]. split; [|split; [exact Hlast|split]].
  - destruct (contains "_" source); [right; exact Hdec | left; exact Hdec].
  - unfold role_of at 1. by rewrite Hno.
  - intros p r Hr. destruct (last_split_app p r Hr) as [Hl Hc].
    unfold role_of. by rewrite Hc.
Qed.

(** ** The trace view against the status *)

Lemma prefix_app (n a b : string) :
  String.prefix n a = true -> String.prefix n (a +:+ b) = true.
Proof.
  revert a. induction n as [|c n IH]; intros a; [by destruct a, b|].
  destruct a as [|d a]; [discriminate|]. cbn [String.prefix].
  change (String d a +:+ b) with (String d (a +:+ b)). cbn [String.prefix].
  destruct (ascii_dec c d); [apply IH | discriminate].
Qed.

Lemma contains_app_l (n a b : string) :
  contains n a = true -> contains n (a +:+ b) = true.
Proof.
  induction a as [|d a IH].
  - cbn [contains]. rewrite orb_false_r. intros H.
    destruct n; [by destruct b | discriminate H].
  - change (String d a +:+ b) with (String d (a +:+ b)). cbn [contains].
    intros [H|H]%orb_true_iff; apply orb_true_iff.
    + left. by apply (prefix_app n (String d a) b).
    + right. by apply IH.
Qed.

Lemma contains_app_r (n a b : string) :
  contains n b = true -> contains n (a +:+ b) = true.
Proof.
  intros H. induction a as [|d a IH]; [exact H|].
  change (String d a +:+ b) with (String d (a +:+ b)). cbn [contains].
  apply orb_true_iff. by right.
Qed.

Lemma contains_join (n sep x : string) (l : list string) :
  In x l -> contains n x = true -> contains n (join sep l) = true.
Proof.
  intros Hin Hx. induction l as [|y l IH]; [destruct Hin|].
  destruct l as [|z l].
  - destruct Hin as [->|[]]. exact Hx.
  - cbn [join]. destruct Hin as [->|Hin].
    + by apply contains_app_l.
    + apply contains_app_r, contains_app_r. by apply IH.
Qed.

Lemma contains_str_of (n : string) (j : json) :
  contains n (str_of j) = true -> contains n (py_str j) = true.
Proof.
  destruct j as [| | |s| |]; try (intros H; exact H).
  intros H. change (contains n ("'" +:+ s +:+ "'") = true).
  apply contains_app_r, contains_app_l. exact H.
Qed.

Lemma dict_lookup_In (k : string) (d : dict) (v : json) :
  dict_lookup k d = Some v -> In (k, v) d.
Proof.
  induction d as [|[k' v'] d IH]; [discriminate|]. simpl.
  destruct (String.eqb_spec k k') as [->|_]; [intros [= ->]; by left|].
  intros H. right. by apply IH.
Qed.

(** A text found in the printed value of a member of a dict is found in
    the printed dict. *)
Lemma contains_member (n k : string) (d : dict) (v : json) :
  In (k, v) d -> contains n (py_str v) = true -> contains n (py_str (JObj d)) = true.
Proof.
  intros Hin Hv. cbn [py_str].
  apply contains_app_r, contains_app_l.
  apply (contains_join n ", " ("'" +:+ k +:+ "': " +:+ py_str v)).
  - apply in_map_iff. exists (k, v). split; [reflexivity | exact Hin].
  - do 3 apply contains_app_r. exact Hv.
Qed.

(** X20: an event that the trace view shows as an error message makes
    the session [Failed]: the test of the trace ("exitcode" in the text
    of the top-level ['content'] of the data) is narrower than the test
    of the metrics ("exitcode" anywhere in the printed data). *)
Theorem trace_error_implies_failed (sid : ident) (evs : list event) (df : cc_frame)
    (m : SessionMetrics) (e : event) :
  calculate_session_metrics sid evs df = Ok (Some m) ->
  In e evs ->
  trace_marks_error e = Ok true ->
  mentions_exitcode e /\ m_status m = Failed.
Proof.
  intros Hm Hin Hmark.
  assert (He : mentions_exitcode e).
  { unfold trace_marks_error in Hmark. unfold mentions_exitcode, type, event_data.
    destruct (payload e) as [| name data | | | | |]; try discriminate.
    destruct (is_received_message name); [|discriminate].
    split; [reflexivity|]. exists data. split; [reflexivity|].
    destruct data as [| | | | |d]; try discriminate. cbn in Hmark.
    injection Hmark as Hc. unfold dict_get in Hc.
    destruct (dict_lookup "content" d) as [v|] eqn:Hv; [|discriminate Hc].
    apply (contains_member _ "content" d v); [by apply dict_lookup_In|].
    by apply contains_str_of. }
  split; [exact He|].
  rewrite (calculate_status _ _ _ _ Hm). apply scan_fold_status. right.
  apply List.Exists_exists. eauto.
Qed.

Lemma trace_error_implies_failed_witness :
  trace_marks_error MoreSamples.flagged = Ok true
  /\ trace_marks_error Samples.crashed = Ok false
  /\ exists m,
       calculate_session_metrics Samples.S1 [Samples.greeting; MoreSamples.flagged]
         (Enriched Samples.ledger) = Ok (Some m)
       /\ m_status m = Failed.
Proof.
  split; [reflexivity|]. split; [reflexivity|].
  eexists. split; [reflexivity|].
  refine (proj2 (trace_error_implies_failed Samples.S1
                   [Samples.greeting; MoreSamples.flagged] (Enriched Samples.ledger)
                   _ MoreSamples.flagged eq_refl _ eq_refl)).
  right. by left.
Defined.

(** ** Shortened messages *)

Lemma length_append (a b : string) :
  String.length (a +:+ b) = (String.length a + String.length b)%nat.
Proof.
  induction a as [|c a IH]; [reflexivity|].
  change (String c a +:+ b) with (String c (a +:+ b)).
  cbn [String.length]. by rewrite IH.
Qed.

Lemma length_substring_0 (n : nat) (s : string) :
  (n <= String.length s)%nat -> String.length (String.substring 0 n s) = n.
Proof.
  revert s. induction n as [|n IH]; intros s Hn.
  - by destruct s.
  - destruct s as [|c s]; [cbn in Hn; lia|].
    cbn [String.substring String.length]. rewrite IH; [reflexivity|].
    cbn [String.length] in Hn. lia.
Qed.

Lemma prefix_substring_0 (n : nat) (s : string) :
  String.prefix (String.substring 0 n s) s = true.
Proof.
  revert s. induction n as [|n IH]; intros s.
  - by destruct s.
  - destruct s as [|c s]; [reflexivity|].
    cbn [String.substring String.prefix].
    destruct (ascii_dec c c); [apply IH | congruence].
Qed.

Lemma shorten_long (s : string) :
  (300 < String.length s)%nat ->
  shorten s = String.substring 0 297 s +:+ "..."
  /\ String.length (shorten s) = 300%nat.
Proof.
  intros Hlong. unfold shorten.
  rewrite (proj2 (Nat.ltb_lt _ _) Hlong). split; [reflexivity|].
  rewrite length_append, length_substring_0 by lia. reflexivity.
Qed.

Lemma shorten_short (s : string) :
  (String.length s <= 300)%nat -> shorten s = s.
Proof.
  intros Hshort. unfold shorten.
  by rewrite (proj2 (Nat.ltb_ge _ _) Hshort).
Qed.

(** X21: a message of the conversation flow is shown with at most 300
    characters: a content of up to 300 characters is shown as it is, a
    longer one is cut to its first 297 characters followed by three
    dots; shortening twice changes nothing more. *)
Theorem shorten_bound (content : string) :
  (String.length (shorten content) <= 300)%nat
  /\ ((String.length content <= 300)%nat -> shorten content = content)
  /\ ((300 < String.length content)%nat ->
      String.length (shorten content) = 300%nat
      /\ exists kept, shorten content = kept +:+ "..."
                      /\ String.length kept = 297%nat
                      /\ String.prefix kept content = true)
  /\ shorten (shorten content) = shorten content.
Proof.
  destruct (Nat.le_gt_cases (String.length content) 300) as [Hshort|Hlong].
  - rewrite (shorten_short _ Hshort).
    split; [exact Hshort|]. split; [reflexivity|]. split; [lia|].
    by apply shorten_short.
  - destruct (shorten_long _ Hlong) as [Heq Hlen].
    split; [lia|]. split; [lia|]. split.
    + intros _. split; [exact Hlen|].
      exists (String.substring 0 297 content). split; [exact Heq|].
      split; [apply length_substring_0; lia | apply prefix_substring_0].
    + apply shorten_short. lia.
Qed.
